(** * The agent loop of the LangGraph lesson, and the [flatten] helper

    A shallow embedding of the Python cells of
    [3-ai-agents-in-langgraph/Lesson_4_Student.ipynb] (the [Agent] class, its
    graph, the persisted threads and the token printing loop) and of
    [flatten] from
    [4-langchain-functions-tools-agents/L4-tagging-and-extraction-student.ipynb].

    The notebook drives libraries that are not part of the repository: the
    chat model and the tools (langchain), the executor of the compiled graph
    and its checkpointer (langgraph). The cells are embedded as they are
    written; the chat model and the tools are parameters of the agent, with
    answers that may depend on the state of the world; the executor and the
    checkpointer are modelled from the specification, each at the definition
    that says so. *)

From stdpp Require Import base gmap strings list.

(** ** [flatten] *)

(** [flat_list = []; for row in matrix: flat_list += row; return flat_list] *)
Definition flatten {A : Type} (matrix : list (list A)) : list A :=
  foldl (fun flat_list row => flat_list ++ row) [] matrix.

(** ** Messages *)

(** The [args] of a tool call: a JSON object, kept as its key/value pairs. *)
Definition Args : Type := list (string * string).

(** An entry of [AIMessage.tool_calls]: [{'name': .., 'args': .., 'id': ..}]. *)
Record ToolCall : Type := {
  call_name : string;
  call_args : Args;
  call_id : string
}.

(** [AnyMessage] of [langchain_core.messages], with the fields the loop reads
    or writes. *)
Inductive AnyMessage : Type :=
| SystemMessage (content : string)
| HumanMessage (content : string)
| AIMessage (content : string) (tool_calls : list ToolCall)
| ToolMessage (tool_call_id : string) (name : string) (content : string).

(** [class AgentState(TypedDict): messages: Annotated[list[AnyMessage], operator.add]].
    A node's return value [{'messages': [...]}] has the same shape. *)
Record AgentState : Type := { messages : list AnyMessage }.

(** The reducer attached to the [messages] channel. *)
Definition operator_add (old new : list AnyMessage) : list AnyMessage := old ++ new.

(** How the graph folds a node's update into the state: channel by channel,
    with the channel's reducer. *)
Definition reduce (state update : AgentState) : AgentState :=
  {| messages := operator_add (messages state) (messages update) |}.

(** The text of an assistant message. *)
Definition assistant_text (m : AnyMessage) : string :=
  match m with
  | AIMessage content _ => content
  | _ => EmptyString
  end.

Definition is_system (m : AnyMessage) : bool :=
  match m with
  | SystemMessage _ => true
  | _ => false
  end.

(** Messages the loop itself writes: assistant and tool messages. *)
Definition from_loop (m : AnyMessage) : bool :=
  match m with
  | AIMessage _ _ | ToolMessage _ _ _ => true
  | _ => false
  end.

(** The tool message that answers a tool call. *)
Definition answer_to (t : ToolCall) (m : AnyMessage) : Prop :=
  exists result, m = ToolMessage (call_id t) (call_name t) result.

(** An assistant message that asks for tools. *)
Definition requests_tools (m : AnyMessage) : bool :=
  match m with
  | AIMessage _ (_ :: _) => true
  | _ => false
  end.

(** Python exceptions the cells can raise. [Raised] stands for whatever an
    external capability (the chat model, a tool) raises. *)
Inductive Exn : Type :=
| KeyError (key : string)
| IndexError
| AttributeError (attr : string)
| Raised (what : string).

(** Events of [astream_events], by kind, with the data the cells read: the
    start of a model call with the messages it is given, one event per
    streamed chunk with the content of the chunk, the end of the call with
    the message, and the start and the end of a tool invocation. *)
Inductive Event : Type :=
| ChatModelStart (input : list AnyMessage)
| ChatModelStream (chunk_content : string)
| ChatModelEnd (output : AnyMessage)
| ToolStart (tool : string)
| ToolEnd (tool : string).

(** [event["event"]] *)
Definition event_kind (ev : Event) : string :=
  match ev with
  | ChatModelStart _ => "on_chat_model_start"
  | ChatModelStream _ => "on_chat_model_stream"
  | ChatModelEnd _ => "on_chat_model_end"
  | ToolStart _ => "on_tool_start"
  | ToolEnd _ => "on_tool_end"
  end.

(** The events of a tool invocation. *)
Definition tool_event (event : Event) : Prop :=
  match event with
  | ToolStart _ | ToolEnd _ => True
  | _ => False
  end.

(** Lines the [Agent] prints while it runs. *)
Inductive Printed : Type :=
| Calling (t : ToolCall)
| BackToTheModel.

(** Truth value of a Python [str]: [if s:]. *)
Definition truthy (s : string) : bool :=
  match s with
  | EmptyString => false
  | String _ _ => true
  end.

(** Summing message chunks concatenates their contents. *)
Definition concat_text (chunks : list string) : string :=
  foldr String.append EmptyString chunks.

(** [str(result)]; a tool's result is taken as text already. *)
Definition str (result : string) : string := result.

(** The nodes of the graph and where an edge can lead. *)
Inductive Node : Type := llm | action.
Inductive Next : Type := To (node : Node) | END.

(** The nodes a run that never ends goes through, from [node] on. *)
Fixpoint cycle (n : nat) (node : Node) : list Node :=
  match n with
  | 0 => []
  | S n' => node :: cycle n' (match node with llm => action | action => llm end)
  end.

(** How a run of the graph stands when it is observed. *)
Inductive Outcome : Type :=
| Finished
| Failed (exn : Exn)
| Running (next : Node).

(** What the chat model answers to one call: the contents of the chunks it
    streams, and the tool calls of the summed message. *)
Record Reply : Type := {
  chunks : list string;
  calls : list ToolCall
}.

Section AgentLoop.
Context {W : Type}.

(** What a run threads along: the state of the outside world (the hosted
    model, the search engine), the events emitted so far and the lines
    printed so far. *)
Record Env : Type := {
  world : W;
  events : list Event;
  stdout : list Printed
}.

(** Computations of the cells: they may raise, and they change [Env]. *)
Definition M (A : Type) : Type := Env -> (Exn + A) * Env.

Definition ret {A : Type} (a : A) : M A := fun env => (inr a, env).

Definition bind {A B : Type} (m : M A) (k : A -> M B) : M B :=
  fun env =>
    match m env with
    | (inl e, env') => (inl e, env')
    | (inr a, env') => k a env'
    end.

Definition lift {A : Type} (r : Exn + A) : M A := fun env => (r, env).

Definition emit (evs : list Event) : M unit :=
  fun env =>
    (inr tt, {| world := world env; events := events env ++ evs; stdout := stdout env |}).

Definition print (p : Printed) : M unit :=
  fun env =>
    (inr tt, {| world := world env; events := events env; stdout := stdout env ++ [p] |}).

(** A call that leaves the process: its answer depends on the world and
    changes it. *)
Definition external {A : Type} (f : W -> (Exn + A) * W) : M A :=
  fun env =>
    let '(r, w) := f (world env) in
    (r, {| world := w; events := events env; stdout := stdout env |}).

(** A chat model, before and after [bind_tools]. *)
Definition ChatModel : Type :=
  list string -> list AnyMessage -> W -> (Exn + Reply) * W.
Definition BoundModel : Type :=
  list AnyMessage -> W -> (Exn + Reply) * W.

(** A tool: [t.name] and [t.invoke(args)]. *)
Record BaseTool : Type := {
  tool_name : string;
  tool_run : Args -> W -> (Exn + string) * W
}.

Record Agent : Type := {
  system : string;
  tools : gmap string BaseTool;
  model : BoundModel
}.

Notation "'let*' x := c 'in' k" := (bind c (fun x => k))
  (at level 10, x pattern, c at level 200, k at level 200, only parsing).

(** [model.bind_tools(tools)]: the model is told the names of the tools. *)
Definition bind_tools (chat : ChatModel) (tool_list : list BaseTool) : BoundModel :=
  chat (map tool_name tool_list).

(** [{t.name: t for t in tools}] *)
Definition tools_by_name (tool_list : list BaseTool) : gmap string BaseTool :=
  foldl (fun d t => <[tool_name t := t]> d) ∅ tool_list.

(** [Agent.__init__], the graph apart (its nodes and edges are [run_node],
    [next_node] and [entry_point] below). *)
Definition Agent_init (chat : ChatModel) (tool_list : list BaseTool)
    (prompt : string) : Agent :=
  {| system := prompt;
     tools := tools_by_name tool_list;
     model := bind_tools chat tool_list |}.

(** Modelled from the spec: [self.model.invoke(messages)] calls the chat
    model, an external collaborator (section 4.3 of the specification: a
    call yields text fragments and tool-call fragments, then the decision;
    an empty fragment stands for a tool-call fragment). The call is
    announced, the contents of the chunks are streamed, and the message
    returned is the sum of the chunks. A call that raises has streamed
    nothing. *)
Definition model_invoke (bound : BoundModel) (input : list AnyMessage) : M AnyMessage :=
  let* _ := emit [ChatModelStart input] in
  let* reply := external (bound input) in
  let* _ := emit (map ChatModelStream (chunks reply)) in
  let message := AIMessage (concat_text (chunks reply)) (calls reply) in
  let* _ := emit [ChatModelEnd message] in
  ret message.

(** Modelled from the spec: [tool.invoke(args)] calls a tool, an external
    collaborator (section 4.2), invoked with its arguments and returning a
    value turned into text, or raising. *)
Definition tool_invoke (t : BaseTool) (args : Args) : M string :=
  let* _ := emit [ToolStart (tool_name t)] in
  let* result := external (tool_run t args) in
  let* _ := emit [ToolEnd (tool_name t)] in
  ret result.

(** [d[key]] on a dict. *)
Definition getitem {V : Type} (d : gmap string V) (key : string) : Exn + V :=
  match d !! key with
  | Some v => inr v
  | None => inl (KeyError key)
  end.

(** [state['messages'][-1]] *)
Definition last_message (state : AgentState) : Exn + AnyMessage :=
  match last (messages state) with
  | Some m => inr m
  | None => inl IndexError
  end.

(** [message.tool_calls]: an attribute of [AIMessage] only. *)
Definition get_tool_calls (message : AnyMessage) : Exn + list ToolCall :=
  match message with
  | AIMessage _ tool_calls => inr tool_calls
  | _ => inl (AttributeError "tool_calls")
  end.

(** The message sequence [call_openai] hands to the model for a state. *)
Definition model_input (self : Agent) (state : AgentState) : list AnyMessage :=
  if truthy (system self)
  then SystemMessage (system self) :: messages state
  else messages state.

(** [Agent.call_openai] *)
Definition call_openai (self : Agent) (state : AgentState) : M AgentState :=
  let messages := messages state in
  let messages :=
    if truthy (system self)
    then [SystemMessage (system self)] ++ messages
    else messages in
  let* message := model_invoke (model self) messages in
  ret {| messages := [message] |}.

(** [Agent.exists_action] *)
Definition exists_action (self : Agent) (state : AgentState) : Exn + bool :=
  match last_message state with
  | inl e => inl e
  | inr result =>
      match get_tool_calls result with
      | inl e => inl e
      | inr tool_calls => inr (0 <? length tool_calls)
      end
  end.

(** The body of [for t in tool_calls:] in [Agent.take_action], run over the
    calls still to make, with [results] as accumulated so far. *)
Fixpoint for_tool_calls (self : Agent) (tool_calls : list ToolCall)
    (results : list AnyMessage) : M (list AnyMessage) :=
  match tool_calls with
  | [] => ret results
  | t :: rest =>
      let* _ := print (Calling t) in
      let* tool := lift (getitem (tools self) (call_name t)) in
      let* result := tool_invoke tool (call_args t) in
      for_tool_calls self rest
        (results ++ [ToolMessage (call_id t) (call_name t) (str result)])
  end.

(** [Agent.take_action] *)
Definition take_action (self : Agent) (state : AgentState) : M AgentState :=
  let* result := lift (last_message state) in
  let* tool_calls := lift (get_tool_calls result) in
  let* results := for_tool_calls self tool_calls [] in
  let* _ := print BackToTheModel in
  ret {| messages := results |}.

(** [graph.add_node("llm", self.call_openai)] and
    [graph.add_node("action", self.take_action)] *)
Definition run_node (self : Agent) (node : Node) : AgentState -> M AgentState :=
  match node with
  | llm => call_openai self
  | action => take_action self
  end.

(** [graph.add_conditional_edges("llm", self.exists_action, {True: "action", False: END})]
    and [graph.add_edge("action", "llm")] *)
Definition next_node (self : Agent) (node : Node) (state : AgentState) : Exn + Next :=
  match node with
  | llm =>
      match exists_action self state with
      | inl e => inl e
      | inr true => inr (To action)
      | inr false => inr END
      end
  | action => inr (To llm)
  end.

(** [graph.set_entry_point("llm")] *)
Definition entry_point : Node := llm.

(** ** The compiled graph and its checkpointer *)

(** Modelled from the spec: the checkpointer ([SqliteSaver], of the langgraph
    library) is not part of the repository. Section 4.1 of the specification
    gives its contract: it keeps, per thread id, the checkpoints saved so far,
    oldest first; [load] returns the empty state for a thread never seen and
    the latest checkpoint otherwise; [save] appends a checkpoint to the
    thread it is given. *)
Definition load (thread_id : string) (saver : gmap string (list AgentState)) : AgentState :=
  default {| messages := [] |} (last (default [] (saver !! thread_id))).

(** Modelled from the spec: [save] of section 4.1, on the checkpointer that
    is not part of the repository. *)
Definition save (thread_id : string) (state : AgentState)
    (saver : gmap string (list AgentState)) : gmap string (list AgentState) :=
  <[thread_id := default [] (saver !! thread_id) ++ [state]]> saver.

(** Modelled from the spec: [list_checkpoints] of section 4.1, oldest
    first. *)
Definition list_checkpoints (thread_id : string)
    (saver : gmap string (list AgentState)) : list AgentState :=
  default [] (saver !! thread_id).

(** Modelled from the spec: [get_history(thread_id)] of section 6, the
    messages of the thread's latest checkpoint. *)
Definition get_history (thread_id : string)
    (saver : gmap string (list AgentState)) : list AnyMessage :=
  messages (load thread_id saver).

(** What is observed of a run: how it stands, the step events
    [{node: update}] it yielded, the checkpointer and the environment. *)
Record Run : Type := {
  outcome : Outcome;
  steps : list (Node * AgentState);
  saver_after : gmap string (list AgentState);
  env_after : Env
}.

(** Modelled from the spec: the executor of the compiled graph (langgraph's)
    is not part of the repository. The state is checkpointed when the run
    reaches it: the state the run starts from (for a turn, the history of
    the thread with the input folded in; by section 8 of the specification
    every submitted message is in the history, without loss) and, as the
    notebook says about the checkpointer, the state after every node;
    section 4.4 of the specification has the same transitions. One step
    runs the current node on the state, folds its update into the state
    with the channel's reducer, yields the step event and follows the
    node's edge to the next step, which starts by saving that state; an
    exception ends the run, with nothing saved for the step that raised.
    [fuel] counts the steps that are observed: a run still going when it is
    spent is [Running]. *)
Fixpoint pregel (fuel : nat) (self : Agent) (thread_id : string) (node : Node)
    (state : AgentState) (saver : gmap string (list AgentState)) (env : Env) : Run :=
  let saver := save thread_id state saver in
  match fuel with
  | 0 =>
      {| outcome := Running node; steps := []; saver_after := saver; env_after := env |}
  | S fuel' =>
      match run_node self node state env with
      | (inl e, env') =>
          {| outcome := Failed e; steps := []; saver_after := saver; env_after := env' |}
      | (inr update, env') =>
          let state' := reduce state update in
          match next_node self node state' with
          | inl e =>
              {| outcome := Failed e; steps := [(node, update)];
                 saver_after := save thread_id state' saver; env_after := env' |}
          | inr END =>
              {| outcome := Finished; steps := [(node, update)];
                 saver_after := save thread_id state' saver; env_after := env' |}
          | inr (To node') =>
              let r := pregel fuel' self thread_id node' state' saver env' in
              {| outcome := outcome r; steps := (node, update) :: steps r;
                 saver_after := saver_after r; env_after := env_after r |}
          end
      end
  end.

(** Modelled from the spec: [abot.graph.stream({"messages": messages}, thread)]
    is langgraph's; by the first transition of section 4.4 the state of the
    thread is loaded, the input is folded into it with the channel's
    reducer, and the graph runs from its entry point, on a state that is
    saved before the first node runs. *)
Definition graph_stream (fuel : nat) (self : Agent) (input : AgentState)
    (thread_id : string) (saver : gmap string (list AgentState)) (env : Env) : Run :=
  pregel fuel self thread_id entry_point (reduce (load thread_id saver) input) saver env.

(** Modelled from the spec:
    [abot.graph.astream_events({"messages": messages}, thread, version="v1")]
    is langgraph's; by section 4.5 it yields the events the same run emits,
    in order. *)
Definition astream_events (fuel : nat) (self : Agent) (input : AgentState)
    (thread_id : string) (saver : gmap string (list AgentState)) (env : Env) : list Event :=
  events (env_after (graph_stream fuel self input thread_id saver
    {| world := world env; events := []; stdout := stdout env |})).

(** The messages a run produced, in the order of its step events. *)
Definition produced (r : Run) : list AnyMessage :=
  concat (map (fun step => messages (snd step)) (steps r)).

(** What a turn added to its thread: its input and what it produced. *)
Definition committed (input : AgentState) (r : Run) : list AnyMessage :=
  messages input ++ produced r.

(** What is observed of several turns: the run of each, and the checkpointer
    and the environment after the last. *)
Record Session : Type := {
  runs : list Run;
  saver_end : gmap string (list AgentState);
  env_end : Env
}.

(** Turns submitted one after the other, each on its thread. *)
Fixpoint submit_all (fuel : nat) (self : Agent) (turns : list (string * AgentState))
    (saver : gmap string (list AgentState)) (env : Env) : Session :=
  match turns with
  | [] => {| runs := []; saver_end := saver; env_end := env |}
  | (thread_id, input) :: rest =>
      let r := graph_stream fuel self input thread_id saver env in
      let s := submit_all fuel self rest (saver_after r) (env_after r) in
      {| runs := r :: runs s; saver_end := saver_end s; env_end := env_end s |}
  end.

(** The checkpoints a run saves after the one of the state it starts from:
    the state after each of its steps. *)
Fixpoint snapshots (state : AgentState) (step_events : list (Node * AgentState))
    : list AgentState :=
  match step_events with
  | [] => []
  | step :: rest =>
      let state' := reduce state (snd step) in
      state' :: snapshots state' rest
  end.

(** Every checkpoint extends the one before it. *)
Definition append_only (checkpoints : list AgentState) : Prop :=
  forall i older newer,
    checkpoints !! i = Some older -> checkpoints !! S i = Some newer ->
    messages older `prefix_of` messages newer.

(** What the turns on [thread_id] added to it, among turns on any thread. *)
Definition contributions (thread_id : string) (turns : list (string * AgentState))
    (runs : list Run) : list AnyMessage :=
  concat (zip_with
    (fun turn r => if decide (fst turn = thread_id) then committed (snd turn) r else [])
    turns runs).

(** The turns of [turns] that are on [thread_id]. *)
Definition turns_on (thread_id : string) (turns : list (string * AgentState))
    : list (string * AgentState) :=
  filter (fun turn => fst turn = thread_id) turns.

(** A call of the model that was given the preamble [sys], then the
    conversation [base], then messages of the loop only. *)
Definition preamble_first (sys : string) (base : list AnyMessage) (event : Event) : Prop :=
  match event with
  | ChatModelStart input =>
      exists extra,
        input = SystemMessage sys :: base ++ extra /\
        Forall (fun m => from_loop m = true) extra
  | _ => True
  end.

(** A call of the model that was given one system message, the preamble
    [sys], at position 0. *)
Definition one_preamble (sys : string) (event : Event) : Prop :=
  match event with
  | ChatModelStart input =>
      exists rest,
        input = SystemMessage sys :: rest /\
        Forall (fun m => is_system m = false) rest
  | _ => True
  end.

(** The tool a call names is registered and returns, whatever it is given. *)
Definition answers (self : Agent) (t : ToolCall) : Prop :=
  exists tool, tools self !! call_name t = Some tool /\
    forall args w, exists result w', tool_run tool args w = (inr result, w').

(** A chat model that asks for tools on every call, all of them answering. *)
Definition always_requests_tools (self : Agent) : Prop :=
  forall input w, exists reply w',
    model self input w = (inr reply, w') /\
    calls reply <> [] /\
    Forall (answers self) (calls reply).

(** The model and the tools answer by their input alone, whatever the state
    of the world. *)
Definition oblivious (self : Agent) : Prop :=
  (forall input w w', fst (model self input w) = fst (model self input w')) /\
  (forall key tool args w w',
     tools self !! key = Some tool ->
     fst (tool_run tool args w) = fst (tool_run tool args w')).

End AgentLoop.

Arguments Run : clear implicits.
Arguments Session : clear implicits.
Arguments Env : clear implicits.
Arguments M : clear implicits.
Arguments ChatModel : clear implicits.
Arguments BoundModel : clear implicits.
Arguments BaseTool : clear implicits.
Arguments Agent : clear implicits.

(** ** The cell that consumes the token stream *)

(** The body of [async for event in abot.graph.astream_events(..)]: what
    [print(content, end="|")] is given, if it is called. *)
Definition on_event (event : Event) : list string :=
  let kind := event_kind event in
  if String.eqb kind "on_chat_model_stream" then
    match event with
    | ChatModelStream content => if truthy content then [content] else []
    | _ => []
    end
  else [].

(** An event the token loop prints nothing for. *)
Definition silent (event : Event) : Prop := on_event event = [].

(** The fragments the token loop prints, in order. *)
Definition print_tokens (evs : list Event) : list string :=
  foldl (fun out event => out ++ on_event event) [] evs.

(** ** Agents to run the loop on *)

Module Examples.

(** A search tool that answers every query the same way. *)
Definition search : BaseTool unit :=
  {| tool_name := "search";
     tool_run := fun _ w => (inr "72F sunny", w) |}.

(** A tool whose backend is down. *)
Definition broken_calculator : BaseTool unit :=
  {| tool_name := "calculator";
     tool_run := fun _ w => (inl (Raised "ConnectionError"), w) |}.

Definition c1 : ToolCall :=
  {| call_name := "search"; call_args := [("query", "weather sf")]; call_id := "c1" |}.

Definition c2 : ToolCall :=
  {| call_name := "calculator"; call_args := [("expr", "72-32")]; call_id := "c2" |}.

Definition c3 : ToolCall :=
  {| call_name := "search"; call_args := [("query", "weather la")]; call_id := "c3" |}.

(** Does the conversation end on a tool result? *)
Definition observed (input : list AnyMessage) : bool :=
  match last input with
  | Some (ToolMessage _ _ _) => true
  | _ => false
  end.

(** Asks for [requests] first, with [aside] as text next to the request, and
    answers once it sees a tool result. *)
Definition mock_model (aside : list string) (requests : list ToolCall) : ChatModel unit :=
  fun _ input w =>
    if observed input
    then (inr {| chunks := ["It is 72F"; ""; " and sunny in SF."]; calls := [] |}, w)
    else (inr {| chunks := aside; calls := requests |}, w).

(** Asks for a search on every call. *)
Definition eager_model : ChatModel unit :=
  fun _ _ w => (inr {| chunks := [""]; calls := [c1] |}, w).

Definition prompt : string := "You are a smart research assistant.".

Definition abot : Agent unit := Agent_init (mock_model [""] [c1; c3]) [search] prompt.
Definition abot_unknown_tool : Agent unit := Agent_init (mock_model [""] [c1; c2]) [search] prompt.
Definition abot_broken_tool : Agent unit :=
  Agent_init (mock_model [""] [c1; c2]) [search; broken_calculator] prompt.
Definition abot_aside : Agent unit :=
  Agent_init (mock_model ["Let me "; "check."] [c1]) [search] prompt.
Definition abot_eager : Agent unit := Agent_init eager_model [search] prompt.

Definition env0 : Env unit := {| world := tt; events := []; stdout := [] |}.

Definition question : AgentState :=
  {| messages := [HumanMessage "What is the weather in sf?"] |}.
Definition follow_up : AgentState :=
  {| messages := [HumanMessage "What about in la?"] |}.

(** The state after a decision that asked for two searches. *)
Definition asked : AgentState :=
  {| messages := [HumanMessage "What is the weather in sf?"; AIMessage "" [c1; c3]] |}.

(** The final answer of [mock_model]. *)
Definition answer : string := "It is 72F and sunny in SF.".

(** What C4 says of a turn in which a tool raised: the turn does not fail,
    and the history has a tool message for the call. *)
Definition folds_tool_failure (r : Run unit) (history : list AnyMessage)
    (t : ToolCall) : Prop :=
  (forall e, outcome r <> Failed e) /\
  exists m, m ∈ history /\ answer_to t m.

(** What C8 says of the stored state of a thread with a preamble
    configured: the preamble is in it, at position 0. *)
Definition stores_preamble (self : Agent unit) (history : list AnyMessage) : Prop :=
  history !! 0 = Some (SystemMessage (system self)).

End Examples.

(** ** What the runs are observed through *)

(** The contents of the chunks of the [on_chat_model_stream] events. *)
Definition stream_contents (evs : list Event) : list string :=
  concat (map (fun event =>
    match event with
    | ChatModelStream content => [content]
    | _ => []
    end) evs).

(** The message sequences the model was called with. *)
Definition model_calls (evs : list Event) : list (list AnyMessage) :=
  concat (map (fun event =>
    match event with
    | ChatModelStart input => [input]
    | _ => []
    end) evs).

Definition is_tool (m : AnyMessage) : bool :=
  match m with
  | ToolMessage _ _ _ => true
  | _ => false
  end.

(** Every tool message refers to a tool call of an assistant message before
    it, by its id and its name. *)
Definition references_resolve (history : list AnyMessage) : Prop :=
  forall i id name content,
    history !! i = Some (ToolMessage id name content) ->
    exists j text tool_calls t,
      j < i /\
      history !! j = Some (AIMessage text tool_calls) /\
      t ∈ tool_calls /\
      call_id t = id /\
      call_name t = name.

(** Step events that go by pairs: a decision with one assistant message,
    then, if it asks for tools, the tool execution with the answers to its
    calls, one by one; a decision is last, or the answers to one. *)
Fixpoint paired (step_events : list (Node * AgentState)) : Prop :=
  match step_events with
  | [] => True
  | (llm, decision) :: rest =>
      exists content tool_calls,
        messages decision = [AIMessage content tool_calls] /\
        match rest with
        | [] => True
        | (action, observation) :: rest' =>
            tool_calls <> [] /\
            Forall2 answer_to tool_calls (messages observation) /\
            paired rest'
        | (llm, _) :: _ => False
        end
  | (action, _) :: _ => False
  end.

Section Observations.
Context {W : Type}.

(** What the model is given at each decision of a run that starts in
    [state] and goes through [step_events]. *)
Fixpoint decision_inputs (self : Agent W) (state : AgentState)
    (step_events : list (Node * AgentState)) : list (list AnyMessage) :=
  match step_events with
  | [] => []
  | (node, update) :: rest =>
      match node with
      | llm => [model_input self state]
      | action => []
      end ++ decision_inputs self (reduce state update) rest
  end.

(** The model and the tools raise nothing but exceptions of their own. *)
Definition raises_its_own (self : Agent W) : Prop :=
  (forall input w e w', model self input w = (inl e, w') -> exists what, e = Raised what) /\
  (forall key tool args w e w',
     tools self !! key = Some tool ->
     tool_run tool args w = (inl e, w') -> exists what, e = Raised what).

End Observations.

(** ** More agents and states to run the loop on *)

Module MoreExamples.
Import Examples.

(** A model that cannot be reached. *)
Definition down_model : ChatModel unit :=
  fun _ _ w => (inl (Raised "APIConnectionError"), w).

Definition abot_down : Agent unit := Agent_init down_model [search] prompt.

(** An agent without a preamble, as [Agent(model, [tool], checkpointer)]
    gives with the default [system=""]. *)
Definition abot_plain : Agent unit := Agent_init (mock_model [""] [c1]) [search] "".

(** The state after a decision that asked for a search and a calculator,
    and after one that asked for a third tool as well. *)
Definition asked_calculator : AgentState :=
  {| messages := [HumanMessage "What is the weather in sf?"; AIMessage "" [c1; c2]] |}.
Definition asked_more : AgentState :=
  {| messages := [HumanMessage "What is the weather in sf?"; AIMessage "" [c1; c2; c3]] |}.

(** A call of a tool that no agent here registers. *)
Definition c4 : ToolCall :=
  {| call_name := "translate"; call_args := [("text", "sunny")]; call_id := "c4" |}.

(** An agent whose model asks for the calculator, which is down, and then
    for a tool that is not registered. *)
Definition abot_broken_first : Agent unit :=
  Agent_init (mock_model [""] [c2; c4]) [search; broken_calculator] prompt.

(** What C3 says of a history: every assistant message is followed by one
    tool message per call it carries, in the order of the calls, each with
    the id of its call. *)
Definition every_call_answered (history : list AnyMessage) : Prop :=
  forall i content tool_calls,
    history !! i = Some (AIMessage content tool_calls) ->
    Forall2 answer_to tool_calls (take (length tool_calls) (drop (S i) history)).

End MoreExamples.

(** * Properties *)

(** ** [flatten] *)

Lemma flatten_from {A : Type} (matrix : list (list A)) (flat_list : list A) :
  foldl (fun flat_list row => flat_list ++ row) flat_list matrix
  = flat_list ++ concat matrix.
Proof.
  revert flat_list.
  induction matrix as [|row matrix IH]; intros flat_list; simpl.
  - by rewrite app_nil_r.
  - by rewrite IH, app_assoc.
Qed.

Lemma flatten_concat {A : Type} (matrix : list (list A)) :
  flatten matrix = concat matrix.
Proof. unfold flatten. by rewrite flatten_from. Qed.

(** C10: [flatten] returns the rows joined from left to right, the order of
    the elements kept within a row and across rows; it maps [++] of matrices
    to [++] of lists, a single row to itself and the empty matrix to the
    empty list, and [flatten [[1;2];[3;4]] = [1;2;3;4]]. *)
Theorem flatten_joins_rows :
  forall (A : Type) (xs ys : list (list A)) (x : list A),
    flatten xs = concat xs /\
    flatten (xs ++ ys) = flatten xs ++ flatten ys /\
    flatten [x] = x /\
    flatten (@nil (list A)) = [] /\
    flatten [[1; 2]; [3; 4]] = [1; 2; 3; 4].
Proof.
  intros A xs ys x.
  rewrite !flatten_concat.
  split; [reflexivity|].
  split; [apply concat_app|].
  split; [simpl; apply app_nil_r|].
  split; reflexivity.
Qed.

(** ** The checkpointer *)

Lemma load_save thread_id state (saver : gmap string (list AgentState)) :
  load thread_id (save thread_id state saver) = state.
Proof.
  unfold load, save. rewrite lookup_insert_eq. simpl.
  by rewrite last_snoc.
Qed.

Lemma list_checkpoints_save thread_id state (saver : gmap string (list AgentState)) :
  list_checkpoints thread_id (save thread_id state saver)
  = list_checkpoints thread_id saver ++ [state].
Proof. unfold list_checkpoints, save. by rewrite lookup_insert_eq. Qed.

Lemma load_last_checkpoint thread_id (saver : gmap string (list AgentState)) :
  load thread_id saver
  = default {| messages := [] |} (last (list_checkpoints thread_id saver)).
Proof. reflexivity. Qed.

(** ** The nodes *)

Section Nodes.
Context {W : Type}.
Implicit Types (self : Agent W) (env : Env W) (state update : AgentState).

(** What [call_openai] does, by the answer of the model. *)
Lemma call_openai_unfold self state env :
  call_openai self state env =
  match model self (model_input self state) (world env) with
  | (inl e, w) =>
      (inl e,
       {| world := w;
          events := events env ++ [ChatModelStart (model_input self state)];
          stdout := stdout env |})
  | (inr reply, w) =>
      let message := AIMessage (concat_text (chunks reply)) (calls reply) in
      (inr {| messages := [message] |},
       {| world := w;
          events := events env ++ [ChatModelStart (model_input self state)]
                    ++ map ChatModelStream (chunks reply) ++ [ChatModelEnd message];
          stdout := stdout env |})
  end.
Proof.
  unfold call_openai, model_input, model_invoke, bind, emit, external, ret; simpl.
  destruct (truthy (system self)); simpl;
    match goal with
    | |- context [model self ?i ?w] => destruct (model self i w) as [[e|reply] w']
    end; simpl; try reflexivity;
    by rewrite <- !app_assoc.
Qed.

(** A decision step that returns has produced one assistant message. *)
Lemma call_openai_returns self state env update env' :
  call_openai self state env = (inr update, env') ->
  exists reply,
    fst (model self (model_input self state) (world env)) = inr reply /\
    update = {| messages := [AIMessage (concat_text (chunks reply)) (calls reply)] |} /\
    events env' = events env ++ [ChatModelStart (model_input self state)]
      ++ map ChatModelStream (chunks reply)
      ++ [ChatModelEnd (AIMessage (concat_text (chunks reply)) (calls reply))].
Proof.
  rewrite call_openai_unfold.
  destruct (model self _ _) as [[e|reply] w]; simpl; intros H; [discriminate|].
  injection H as <- <-. by exists reply.
Qed.

Lemma call_openai_raises self state env e env' :
  call_openai self state env = (inl e, env') ->
  events env' = events env ++ [ChatModelStart (model_input self state)].
Proof.
  rewrite call_openai_unfold.
  destruct (model self _ _) as [[e0|reply] w]; simpl; intros H; [|discriminate].
  by injection H as <- <-.
Qed.

(** One turn of the loop, when the tool is registered and returns. *)
Lemma for_tool_calls_cons self t rest results env tool :
  tools self !! call_name t = Some tool ->
  for_tool_calls self (t :: rest) results env =
  match tool_invoke tool (call_args t)
          {| world := world env; events := events env;
             stdout := stdout env ++ [Calling t] |} with
  | (inl e, env1) => (inl e, env1)
  | (inr result, env1) =>
      for_tool_calls self rest
        (results ++ [ToolMessage (call_id t) (call_name t) (str result)]) env1
  end.
Proof.
  intros Htool. simpl. unfold bind, print, lift, getitem. simpl.
  by rewrite Htool.
Qed.

(** One turn of the loop, when the tool is not registered. *)
Lemma for_tool_calls_unknown self t rest results env :
  tools self !! call_name t = None ->
  for_tool_calls self (t :: rest) results env =
  (inl (KeyError (call_name t)),
   {| world := world env; events := events env;
      stdout := stdout env ++ [Calling t] |}).
Proof.
  intros Htool. simpl. unfold bind, print, lift, getitem. simpl.
  by rewrite Htool.
Qed.

(** The loop over the tool calls, split at any point of the list. *)
Lemma for_tool_calls_app self done rest results env :
  for_tool_calls self (done ++ rest) results env =
  match for_tool_calls self done results env with
  | (inl e, env1) => (inl e, env1)
  | (inr results1, env1) => for_tool_calls self rest results1 env1
  end.
Proof.
  revert results env.
  induction done as [|t done IH]; intros results env; [reflexivity|].
  rewrite <- app_comm_cons.
  destruct (tools self !! call_name t) as [tool|] eqn:Htool.
  - rewrite !(for_tool_calls_cons _ _ _ _ _ tool Htool).
    destruct (tool_invoke tool _ _) as [[e|result] env1]; [reflexivity|].
    apply IH.
  - by rewrite !for_tool_calls_unknown.
Qed.

Lemma tool_invoke_unfold (t : BaseTool W) args env :
  tool_invoke t args env =
  match tool_run t args (world env) with
  | (inl e, w) =>
      (inl e, {| world := w; events := events env ++ [ToolStart (tool_name t)];
                 stdout := stdout env |})
  | (inr result, w) =>
      (inr result,
       {| world := w;
          events := events env ++ [ToolStart (tool_name t); ToolEnd (tool_name t)];
          stdout := stdout env |})
  end.
Proof.
  unfold tool_invoke, bind, emit, external, ret; simpl.
  destruct (tool_run t args (world env)) as [[e|result] w]; simpl; [reflexivity|].
  by rewrite <- app_assoc.
Qed.

(** The loop returns one tool message per call, in the order of the calls,
    after the results it started from. *)
Lemma for_tool_calls_returns self tool_calls results env out env' :
  for_tool_calls self tool_calls results env = (inr out, env') ->
  exists new, out = results ++ new /\ Forall2 answer_to tool_calls new.
Proof.
  revert results env.
  induction tool_calls as [|t rest IH]; intros results env H.
  - simpl in H. injection H as <- <-. exists []. by rewrite app_nil_r.
  - destruct (tools self !! call_name t) as [tool|] eqn:Htool.
    + rewrite (for_tool_calls_cons _ _ _ _ _ tool Htool) in H.
      destruct (tool_invoke tool _ _) as [[e|result] env1]; [discriminate|].
      apply IH in H as (new & -> & Hnew).
      exists (ToolMessage (call_id t) (call_name t) (str result) :: new). split.
      * by rewrite <- app_assoc.
      * constructor; [by exists (str result)|done].
    + rewrite for_tool_calls_unknown in H by done. discriminate.
Qed.

(** The loop emits tool events only. *)
Lemma for_tool_calls_events self tool_calls results env r env' :
  for_tool_calls self tool_calls results env = (r, env') ->
  exists evs, events env' = events env ++ evs /\ Forall tool_event evs.
Proof.
  revert results env.
  induction tool_calls as [|t rest IH]; intros results env H.
  - simpl in H. injection H as <- <-. exists []. by rewrite app_nil_r.
  - destruct (tools self !! call_name t) as [tool|] eqn:Htool.
    + rewrite (for_tool_calls_cons _ _ _ _ _ tool Htool) in H.
      rewrite tool_invoke_unfold in H. simpl in H.
      destruct (tool_run tool _ _) as [[e|result] w].
      * injection H as <- <-. simpl. eexists. split; [reflexivity|].
        by repeat constructor.
      * apply IH in H as (evs & -> & Hevs). simpl.
        exists ([ToolStart (tool_name tool); ToolEnd (tool_name tool)] ++ evs).
        split; [by rewrite <- app_assoc|].
        apply Forall_app. split; [by repeat constructor|done].
    + rewrite for_tool_calls_unknown in H by done.
      injection H as <- <-. simpl. exists []. by rewrite app_nil_r.
Qed.

(** With every call answered, the loop returns. *)
Lemma for_tool_calls_total self tool_calls results env :
  Forall (answers self) tool_calls ->
  exists out env', for_tool_calls self tool_calls results env = (inr out, env').
Proof.
  intros Hall. revert results env.
  induction Hall as [|t rest (tool & Htool & Hrun) _ IH]; intros results env.
  - by exists results, env.
  - rewrite (for_tool_calls_cons _ _ _ _ _ tool Htool), tool_invoke_unfold. simpl.
    destruct (Hrun (call_args t) (world env)) as (result & w & ->).
    apply IH.
Qed.

(** A loop that raises stopped at a call [t]: the calls before it were
    answered, and [t] names no registered tool, or its tool raised. *)
Lemma for_tool_calls_raises self tool_calls results env e env' :
  for_tool_calls self tool_calls results env = (inl e, env') ->
  exists done t rest out env1,
    tool_calls = done ++ t :: rest /\
    for_tool_calls self done results env = (inr out, env1) /\
    stdout env' = stdout env1 ++ [Calling t] /\
    (tools self !! call_name t = None /\ e = KeyError (call_name t) \/
     exists tool w,
       tools self !! call_name t = Some tool /\
       tool_run tool (call_args t) (world env1) = (inl e, w)).
Proof.
  revert results env.
  induction tool_calls as [|t rest IH]; intros results env H; [discriminate|].
  destruct (tools self !! call_name t) as [tool|] eqn:Htool.
  - pose proof H as H'.
    rewrite (for_tool_calls_cons _ _ _ _ _ tool Htool), tool_invoke_unfold in H'.
    simpl in H'.
    destruct (tool_run tool (call_args t) (world env)) as [[e0|result] w] eqn:Hrun.
    + injection H' as <- <-.
      exists [], t, rest, results, env. split; [done|]. split; [done|].
      split; [done|]. right. by exists tool, w.
    + apply IH in H' as (done & t' & rest' & out & env1 & -> & Hdone & Hcase).
      exists (t :: done), t', rest', out, env1. split; [done|]. split; [|done].
      rewrite (for_tool_calls_cons _ _ _ _ _ tool Htool), tool_invoke_unfold.
      simpl. by rewrite Hrun.
  - rewrite for_tool_calls_unknown in H by done. injection H as <- <-.
    exists [], t, rest, results, env. split; [done|]. split; [done|].
    split; [done|]. by left.
Qed.

(** The calls of a loop that returned all name registered tools. *)
Lemma for_tool_calls_registered self tool_calls results env out env' :
  for_tool_calls self tool_calls results env = (inr out, env') ->
  Forall (fun t => is_Some (tools self !! call_name t)) tool_calls.
Proof.
  revert results env.
  induction tool_calls as [|t rest IH]; intros results env H; [constructor|].
  destruct (tools self !! call_name t) as [tool|] eqn:Htool.
  - rewrite (for_tool_calls_cons _ _ _ _ _ tool Htool) in H.
    destruct (tool_invoke tool _ _) as [[e|result] env1]; [discriminate|].
    constructor; [by rewrite Htool|by eapply IH].
  - rewrite for_tool_calls_unknown in H by done. discriminate.
Qed.

(** A loop over calls of which one names no registered tool raises. *)
Lemma for_tool_calls_unknown_raises self tool_calls results env t :
  t ∈ tool_calls ->
  tools self !! call_name t = None ->
  exists e env', for_tool_calls self tool_calls results env = (inl e, env').
Proof.
  intros Hin Hnone.
  destruct (for_tool_calls self tool_calls results env) as [[e|out] env'] eqn:Hloop;
    [by exists e, env'|].
  apply for_tool_calls_registered in Hloop.
  destruct (proj1 (Forall_forall _ _) Hloop _ Hin) as [tool Htool].
  congruence.
Qed.

(** [take_action] on a state that ends on an assistant message. *)
Lemma take_action_unfold self state env content tool_calls :
  last (messages state) = Some (AIMessage content tool_calls) ->
  take_action self state env =
  match for_tool_calls self tool_calls [] env with
  | (inl e, env1) => (inl e, env1)
  | (inr results, env1) =>
      (inr {| messages := results |},
       {| world := world env1; events := events env1;
          stdout := stdout env1 ++ [BackToTheModel] |})
  end.
Proof.
  intros Hlast. unfold take_action, bind, lift, last_message, print, ret.
  rewrite Hlast. simpl.
  by destruct (for_tool_calls self tool_calls [] env) as [[e|results] env1].
Qed.

(** [take_action] returns only on a state that ends on an assistant message,
    with the answers to its tool calls. *)
Lemma take_action_returns self state env update env' :
  take_action self state env = (inr update, env') ->
  exists content tool_calls,
    last (messages state) = Some (AIMessage content tool_calls) /\
    Forall2 answer_to tool_calls (messages update).
Proof.
  intros H.
  destruct (last (messages state)) as [m|] eqn:Hlast.
  - destruct m as [c|c|content tool_calls|i n c];
      try (unfold take_action, bind, lift, last_message in H;
           rewrite Hlast in H; simpl in H; discriminate).
    rewrite (take_action_unfold _ _ _ content tool_calls Hlast) in H.
    destruct (for_tool_calls self tool_calls [] env) as [[e|results] env1] eqn:Hloop;
      [discriminate|].
    injection H as <- <-.
    apply for_tool_calls_returns in Hloop as (new & -> & Hnew).
    by exists content, tool_calls.
  - unfold take_action, bind, lift, last_message in H.
    rewrite Hlast in H. simpl in H. discriminate.
Qed.

Lemma take_action_events self state env r env' :
  take_action self state env = (r, env') ->
  exists evs, events env' = events env ++ evs /\ Forall tool_event evs.
Proof.
  intros H.
  assert (Hnone : forall e, (inl e : Exn + AgentState, env) = (r, env') ->
    exists evs, events env' = events env ++ evs /\ Forall tool_event evs).
  { intros e He. injection He as <- <-. exists []. by rewrite app_nil_r. }
  destruct (last (messages state)) as [m|] eqn:Hlast.
  - destruct m as [c|c|content tool_calls|i n c];
      try (unfold take_action, bind, lift, last_message in H;
           rewrite Hlast in H; simpl in H; by eapply Hnone).
    rewrite (take_action_unfold _ _ _ content tool_calls Hlast) in H.
    destruct (for_tool_calls self tool_calls [] env) as [[e|results] env1] eqn:Hloop.
    + injection H as <- <-. by eapply for_tool_calls_events.
    + injection H as <- <-. simpl. by eapply for_tool_calls_events.
  - unfold take_action, bind, lift, last_message in H.
    rewrite Hlast in H. simpl in H. by eapply Hnone.
Qed.

(** The edge out of the decision step, on a state that ends on an assistant
    message. *)
Lemma next_node_llm self state content tool_calls :
  last (messages state) = Some (AIMessage content tool_calls) ->
  next_node self llm state =
  inr (match tool_calls with [] => END | _ :: _ => To action end).
Proof.
  intros Hlast. unfold next_node, exists_action, last_message.
  rewrite Hlast. simpl. by destruct tool_calls.
Qed.

Lemma last_reduce_singleton state m :
  last (messages (reduce state {| messages := [m] |})) = Some m.
Proof. unfold reduce, operator_add. simpl. apply last_snoc. Qed.

End Nodes.

(** ** The token loop *)

Lemma foldl_extend {A B : Type} (f : A -> list B) (l : list A) (out : list B) :
  foldl (fun out x => out ++ f x) out l = out ++ concat (map f l).
Proof.
  revert out. induction l as [|x l IH]; intros out; simpl.
  - by rewrite app_nil_r.
  - by rewrite IH, app_assoc.
Qed.

Lemma print_tokens_concat (evs : list Event) :
  print_tokens evs = concat (map on_event evs).
Proof. unfold print_tokens. by rewrite foldl_extend. Qed.

Lemma print_tokens_app (evs1 evs2 : list Event) :
  print_tokens (evs1 ++ evs2) = print_tokens evs1 ++ print_tokens evs2.
Proof. by rewrite !print_tokens_concat, map_app, concat_app. Qed.

Lemma print_tokens_silent (evs : list Event) :
  Forall silent evs -> print_tokens evs = [].
Proof.
  rewrite print_tokens_concat.
  induction 1 as [|ev evs Hev _ IH]; simpl; [done|].
  by rewrite Hev, IH.
Qed.

Lemma print_tokens_chunks (contents : list string) :
  print_tokens (map ChatModelStream contents) = filter (fun c => truthy c = true) contents.
Proof.
  rewrite print_tokens_concat.
  induction contents as [|c contents IH]; simpl; [done|].
  rewrite IH. unfold on_event. simpl.
  destruct (truthy c) eqn:Hc.
  - by rewrite filter_cons_True.
  - rewrite filter_cons_False; [done|]. by rewrite Hc.
Qed.

Lemma print_tokens_nonempty (evs : list Event) :
  Forall (fun content => content <> EmptyString) (print_tokens evs).
Proof.
  rewrite print_tokens_concat.
  induction evs as [|ev evs IH]; simpl; [constructor|].
  apply Forall_app. split; [|done].
  unfold on_event.
  destruct (String.eqb _ _); [|constructor].
  destruct ev as [| c | | |]; try constructor.
  destruct c; simpl; constructor; [discriminate|constructor].
Qed.

Lemma append_cons (a : Ascii.ascii) (s1 s2 : string) :
  String.append (String a s1) s2 = String a (String.append s1 s2).
Proof. reflexivity. Qed.

Lemma append_assoc (s1 s2 s3 : string) :
  String.append s1 (String.append s2 s3) = String.append (String.append s1 s2) s3.
Proof. induction s1 as [|a s1 IH]; [done|]. by rewrite !append_cons, IH. Qed.

Lemma append_empty_r (s : string) : String.append s EmptyString = s.
Proof. induction s as [|a s IH]; [done|]. by rewrite append_cons, IH. Qed.

Lemma concat_text_app (l1 l2 : list string) :
  concat_text (l1 ++ l2) = String.append (concat_text l1) (concat_text l2).
Proof.
  induction l1 as [|c l1 IH]; [done|].
  change (String.append c (concat_text (l1 ++ l2))
          = String.append (String.append c (concat_text l1)) (concat_text l2)).
  by rewrite IH, append_assoc.
Qed.

Lemma concat_text_truthy (contents : list string) :
  concat_text (filter (fun c => truthy c = true) contents) = concat_text contents.
Proof.
  induction contents as [|c contents IH]; [done|].
  destruct c as [|a c].
  - rewrite filter_cons_False by done. exact IH.
  - rewrite filter_cons_True by done. simpl. by rewrite IH.
Qed.

Lemma tool_events_silent (evs : list Event) :
  Forall tool_event evs -> Forall silent evs.
Proof.
  induction 1 as [|ev evs Hev _ IH]; constructor; [|done].
  by destruct ev.
Qed.

Lemma concat_text_empty (l : list string) :
  Forall (fun c => c = EmptyString) l -> concat_text l = EmptyString.
Proof. induction 1 as [|c l -> _ IH]; simpl; done. Qed.

(** ** Runs of the graph *)

Section Runs.
Context {W : Type}.
Implicit Types (self : Agent W) (env : Env W) (state update : AgentState).
Implicit Types (saver : gmap string (list AgentState)).

Ltac pregel_cases :=
  simpl;
  destruct (run_node _ _ _ _) as [[?e|?update] ?env'] eqn:?Hnode; simpl;
  [| destruct (next_node _ _ _) as [?e|[?node'|]] eqn:?Hnext; simpl ].

(** A step that returns has written messages of the loop only. *)
Lemma run_node_from_loop self node state env update env' :
  run_node self node state env = (inr update, env') ->
  Forall (fun m => from_loop m = true) (messages update).
Proof.
  destruct node; simpl; intros H.
  - apply call_openai_returns in H as (reply & _ & -> & _). by repeat constructor.
  - apply take_action_returns in H as (content & tool_calls & _ & Hall).
    induction Hall as [|t m ts ms [result ->] _ IH]; by constructor.
Qed.

(** The checkpoints of the thread after a run: those before it, then the
    state the run started from, then the state after each step. *)
Lemma pregel_checkpoints fuel self thread_id node state saver env :
  list_checkpoints thread_id
    (saver_after (pregel fuel self thread_id node state saver env))
  = list_checkpoints thread_id saver
    ++ state :: snapshots state (steps (pregel fuel self thread_id node state saver env)).
Proof.
  revert node state saver env.
  induction fuel as [|fuel IH]; intros node state saver env.
  - simpl. apply list_checkpoints_save.
  - pregel_cases.
    + apply list_checkpoints_save.
    + rewrite !list_checkpoints_save. by rewrite <- app_assoc.
    + rewrite IH, list_checkpoints_save. by rewrite <- app_assoc.
    + rewrite !list_checkpoints_save. by rewrite <- app_assoc.
Qed.

(** A run writes to its own thread only. *)
Lemma pregel_frame fuel self thread_id node state saver env other :
  thread_id <> other ->
  saver_after (pregel fuel self thread_id node state saver env) !! other
  = saver !! other.
Proof.
  intros Hne. revert node state saver env.
  induction fuel as [|fuel IH]; intros node state saver env.
  - simpl. unfold save. by rewrite lookup_insert_ne.
  - pregel_cases; try rewrite IH; unfold save; by rewrite ?lookup_insert_ne.
Qed.

Lemma snapshots_last state step_events :
  messages (default state (last (snapshots state step_events)))
  = messages state ++ concat (map (fun step => messages (snd step)) step_events).
Proof.
  revert state. induction step_events as [|step rest IH]; intros state.
  - simpl. by rewrite app_nil_r.
  - change (snapshots state (step :: rest))
      with (reduce state (snd step) :: snapshots (reduce state (snd step)) rest).
    rewrite last_cons.
    specialize (IH (reduce state (snd step))).
    destruct (last (snapshots (reduce state (snd step)) rest)) as [final|];
      simpl in *; rewrite IH; unfold operator_add; by rewrite app_assoc.
Qed.

(** The history of the thread after a run: the state the run started from,
    then what it produced. *)
Lemma pregel_history fuel self thread_id node state saver env :
  let r := pregel fuel self thread_id node state saver env in
  get_history thread_id (saver_after r) = messages state ++ produced r.
Proof.
  intros r. unfold get_history. rewrite !load_last_checkpoint.
  subst r. rewrite pregel_checkpoints.
  set (r := pregel fuel self thread_id node state saver env).
  unfold produced. rewrite <- snapshots_last.
  rewrite last_app, last_cons.
  by destruct (last (snapshots state (steps r))).
Qed.

(** The same for a turn: what it [committed] is what its thread gained. *)
Lemma graph_stream_history fuel self input thread_id saver env :
  let r := graph_stream fuel self input thread_id saver env in
  get_history thread_id (saver_after r)
  = get_history thread_id saver ++ committed input r.
Proof.
  intros r. subst r. unfold graph_stream. rewrite pregel_history.
  unfold committed, reduce, operator_add, get_history. simpl.
  by rewrite app_assoc.
Qed.

Lemma graph_stream_frame fuel self input thread_id saver env other :
  thread_id <> other ->
  saver_after (graph_stream fuel self input thread_id saver env) !! other
  = saver !! other.
Proof. apply pregel_frame. Qed.

(** A run writes messages of the loop only. *)
Lemma pregel_from_loop fuel self thread_id node state saver env :
  Forall (fun m => from_loop m = true)
    (produced (pregel fuel self thread_id node state saver env)).
Proof.
  revert node state saver env.
  induction fuel as [|fuel IH]; intros node state saver env.
  - constructor.
  - pregel_cases; unfold produced; simpl;
      try constructor; rewrite ?app_nil_r;
      try (by eapply run_node_from_loop).
    apply Forall_app. split; [by eapply run_node_from_loop|apply IH].
Qed.

(** One step of a run, by what the node and its edge give. *)
Lemma pregel_step_to fuel self thread_id node state saver env update env' node' :
  run_node self node state env = (inr update, env') ->
  next_node self node (reduce state update) = inr (To node') ->
  let r := pregel fuel self thread_id node' (reduce state update)
             (save thread_id state saver) env' in
  pregel (S fuel) self thread_id node state saver env
  = {| outcome := outcome r; steps := (node, update) :: steps r;
       saver_after := saver_after r; env_after := env_after r |}.
Proof. intros Hnode Hnext. simpl. by rewrite Hnode, Hnext. Qed.

Lemma pregel_step_end fuel self thread_id node state saver env update env' :
  run_node self node state env = (inr update, env') ->
  next_node self node (reduce state update) = inr END ->
  pregel (S fuel) self thread_id node state saver env
  = {| outcome := Finished; steps := [(node, update)];
       saver_after := save thread_id (reduce state update) (save thread_id state saver);
       env_after := env' |}.
Proof. intros Hnode Hnext. simpl. by rewrite Hnode, Hnext. Qed.

Lemma pregel_step_raise fuel self thread_id node state saver env e env' :
  run_node self node state env = (inl e, env') ->
  pregel (S fuel) self thread_id node state saver env
  = {| outcome := Failed e; steps := [];
       saver_after := save thread_id state saver; env_after := env' |}.
Proof. intros Hnode. simpl. by rewrite Hnode. Qed.

(** What the token loop prints for one step: the text of the assistant
    message, if the step wrote one. *)
Lemma run_node_tokens self node state env res env' :
  run_node self node state env = (res, env') ->
  exists evs,
    events env' = events env ++ evs /\
    concat_text (print_tokens evs)
    = match res with
      | inl _ => EmptyString
      | inr update => concat_text (map assistant_text (messages update))
      end.
Proof.
  destruct node; simpl; intros H.
  - destruct res as [e|update].
    + apply call_openai_raises in H. eexists. split; [exact H|]. reflexivity.
    + apply call_openai_returns in H as (reply & _ & -> & Hevs).
      eexists. split; [exact Hevs|].
      rewrite !print_tokens_app, print_tokens_chunks. simpl.
      rewrite app_nil_r, concat_text_truthy.
      by rewrite append_empty_r.
  - pose proof (take_action_events _ _ _ _ _ H) as (evs & Hevs & Hsilent).
    exists evs. split; [done|].
    rewrite print_tokens_silent by by apply tool_events_silent.
    destruct res as [e|update]; [done|].
    apply take_action_returns in H as (content & tool_calls & _ & Hall).
    symmetry. apply concat_text_empty.
    induction Hall as [|t m ts ms [result ->] _ IH]; by constructor.
Qed.

(** What the token loop prints for a run: the text of the assistant
    messages the run produced, in order. *)
Lemma pregel_tokens fuel self thread_id node state saver env :
  let r := pregel fuel self thread_id node state saver env in
  exists evs,
    events (env_after r) = events env ++ evs /\
    concat_text (print_tokens evs) = concat_text (map assistant_text (produced r)).
Proof.
  revert node state saver env.
  induction fuel as [|fuel IH]; intros node state saver env r; subst r.
  - exists []. by rewrite app_nil_r.
  - destruct (run_node self node state env) as [res env'] eqn:Hnode.
    destruct (run_node_tokens _ _ _ _ _ _ Hnode) as (evs & Hevs & Htok).
    destruct res as [e|update].
    + rewrite (pregel_step_raise _ _ _ _ _ _ _ _ _ Hnode). simpl. by exists evs.
    + destruct (next_node self node (reduce state update)) as [e|[node'|]] eqn:Hnext.
      * simpl. rewrite Hnode, Hnext. simpl. exists evs. split; [done|].
        unfold produced. simpl. by rewrite app_nil_r.
      * rewrite (pregel_step_to _ _ _ _ _ _ _ _ _ _ Hnode Hnext). simpl.
        destruct (IH node' (reduce state update)
                    (save thread_id state saver) env')
          as (evs' & Hevs' & Htok').
        exists (evs ++ evs'). split.
        { by rewrite Hevs', Hevs, app_assoc. }
        rewrite print_tokens_app, concat_text_app, Htok, Htok'.
        unfold produced. simpl. by rewrite map_app, concat_text_app.
      * rewrite (pregel_step_end _ _ _ _ _ _ _ _ _ Hnode Hnext). simpl.
        exists evs. split; [done|].
        unfold produced. simpl. by rewrite app_nil_r.
Qed.

(** A run that finished ends on an assistant message without tool calls,
    and no message before it is one. *)
Lemma pregel_finished fuel self thread_id node state saver env :
  let r := pregel fuel self thread_id node state saver env in
  outcome r = Finished ->
  exists front content,
    produced r = front ++ [AIMessage content []] /\
    Forall (fun m => forall c, m <> AIMessage c []) front.
Proof.
  revert node state saver env.
  induction fuel as [|fuel IH]; intros node state saver env r; subst r.
  - discriminate.
  - destruct (run_node self node state env) as [[e|update] env'] eqn:Hnode.
    + rewrite (pregel_step_raise _ _ _ _ _ _ _ _ _ Hnode). discriminate.
    + destruct (next_node self node (reduce state update)) as [e|[node'|]] eqn:Hnext.
      * simpl. rewrite Hnode, Hnext. discriminate.
      * rewrite (pregel_step_to _ _ _ _ _ _ _ _ _ _ Hnode Hnext). simpl.
        intros Hfin. apply IH in Hfin as (front & content & Hprod & Hfront).
        exists (messages update ++ front), content. split.
        { unfold produced in *. simpl. by rewrite Hprod, app_assoc. }
        apply Forall_app. split; [|done].
        destruct node; simpl in Hnode.
        -- apply call_openai_returns in Hnode as (reply & _ & -> & _).
           rewrite (next_node_llm _ _ _ _ (last_reduce_singleton _ _)) in Hnext.
           constructor; [|constructor].
           intros c Heq. injection Heq as _ Hcalls. rewrite Hcalls in Hnext.
           discriminate.
        -- apply take_action_returns in Hnode as (c0 & tool_calls & _ & Hall).
           clear -Hall.
           induction Hall as [|t m ts ms [result ->] _ IHall]; by constructor.
      * rewrite (pregel_step_end _ _ _ _ _ _ _ _ _ Hnode Hnext). simpl. intros _.
        destruct node; [simpl in Hnode|simpl in Hnext; discriminate].
        apply call_openai_returns in Hnode as (reply & _ & -> & _).
        rewrite (next_node_llm _ _ _ _ (last_reduce_singleton _ _)) in Hnext.
        destruct (calls reply) as [|t ts] eqn:Hcalls; [|discriminate].
        exists [], (concat_text (chunks reply)). by split.
Qed.

(** With a preamble configured, every call of the model in a step is given
    the preamble first, then the conversation. *)
Lemma run_node_model_inputs self node state env res env' base extra :
  truthy (system self) = true ->
  messages state = base ++ extra ->
  Forall (fun m => from_loop m = true) extra ->
  run_node self node state env = (res, env') ->
  exists evs,
    events env' = events env ++ evs /\
    Forall (preamble_first (system self) base) evs.
Proof.
  intros Hsys Hstate Hextra H.
  destruct node; simpl in H.
  - rewrite call_openai_unfold in H.
    assert (Hinput : preamble_first (system self) base
                       (ChatModelStart (model_input self state))).
    { exists extra. unfold model_input. by rewrite Hsys, Hstate. }
    destruct (model self _ _) as [[e|reply] w]; injection H as <- <-; simpl;
      eexists; (split; [reflexivity|]).
    + by constructor.
    + constructor; [done|]. apply Forall_app. split.
      * apply Forall_forall. intros ev Hev.
        apply list_elem_of_fmap in Hev as (c & -> & _). exact I.
      * by repeat constructor.
  - apply take_action_events in H as (evs & Hevs & Htool).
    exists evs. split; [done|].
    eapply Forall_impl; [exact Htool|]. intros ev Hev. by destruct ev.
Qed.

Lemma pregel_model_inputs fuel self thread_id node state saver env base extra :
  truthy (system self) = true ->
  messages state = base ++ extra ->
  Forall (fun m => from_loop m = true) extra ->
  exists evs,
    events (env_after (pregel fuel self thread_id node state saver env))
    = events env ++ evs /\
    Forall (preamble_first (system self) base) evs.
Proof.
  intros Hsys. revert node state saver env extra.
  induction fuel as [|fuel IH]; intros node state saver env extra Hstate Hextra.
  - exists []. by rewrite app_nil_r.
  - destruct (run_node self node state env) as [res env'] eqn:Hnode.
    destruct (run_node_model_inputs _ _ _ _ _ _ _ _ Hsys Hstate Hextra Hnode)
      as (evs & Hevs & Hfirst).
    destruct res as [e|update].
    + rewrite (pregel_step_raise _ _ _ _ _ _ _ _ _ Hnode). simpl. by exists evs.
    + destruct (next_node self node (reduce state update)) as [e|[node'|]] eqn:Hnext.
      * simpl. rewrite Hnode, Hnext. simpl. by exists evs.
      * rewrite (pregel_step_to _ _ _ _ _ _ _ _ _ _ Hnode Hnext). simpl.
        destruct (IH node' (reduce state update)
                    (save thread_id state saver) env'
                    (extra ++ messages update))
          as (evs' & Hevs' & Hfirst').
        { unfold reduce, operator_add. simpl. by rewrite Hstate, app_assoc. }
        { apply Forall_app. split; [done|]. by eapply run_node_from_loop. }
        exists (evs ++ evs'). split.
        -- by rewrite Hevs', Hevs, app_assoc.
        -- by apply Forall_app.
      * rewrite (pregel_step_end _ _ _ _ _ _ _ _ _ Hnode Hnext). simpl. by exists evs.
Qed.

(** With a model that always asks for tools, a run is still going after any
    number of steps, alternating between the two nodes. *)
Lemma pregel_cycles fuel self thread_id node state saver env :
  always_requests_tools self ->
  (node = action ->
   exists content tool_calls,
     last (messages state) = Some (AIMessage content tool_calls) /\
     Forall (answers self) tool_calls) ->
  let r := pregel fuel self thread_id node state saver env in
  (exists next, outcome r = Running next) /\
  fst <$> steps r = cycle fuel node.
Proof.
  intros Hloop. revert node state saver env.
  induction fuel as [|fuel IH]; intros node state saver env Hnode r; subst r.
  - split; [by exists node|done].
  - destruct node.
    + destruct (Hloop (model_input self state) (world env))
        as (reply & w & Hmodel & Hcalls & Hanswers).
      pose proof (call_openai_unfold self state env) as Hcall.
      rewrite Hmodel in Hcall. simpl in Hcall.
      assert (Hnext : next_node self llm
                (reduce state {| messages :=
                   [AIMessage (concat_text (chunks reply)) (calls reply)] |})
              = inr (To action)).
      { rewrite (next_node_llm _ _ _ _ (last_reduce_singleton _ _)).
        by destruct (calls reply). }
      rewrite (pregel_step_to _ _ _ llm _ _ _ _ _ _ Hcall Hnext). simpl.
      edestruct IH as (Hrun & Hsteps);
        [|split; [exact Hrun|f_equal; exact Hsteps]].
      intros _. eexists _, _. split; [apply last_reduce_singleton|done].
    + destruct Hnode as (content & tool_calls & Hlast & Hanswers); [done|].
      pose proof (take_action_unfold self state env _ _ Hlast) as Hact.
      destruct (for_tool_calls_total self tool_calls [] env Hanswers)
        as (results & env1 & Hresults).
      rewrite Hresults in Hact.
      assert (Hnext : next_node self action (reduce state {| messages := results |})
                      = inr (To llm)) by done.
      rewrite (pregel_step_to _ _ _ action _ _ _ _ _ _ Hact Hnext). simpl.
      edestruct IH as (Hrun & Hsteps);
        [|split; [exact Hrun|f_equal; exact Hsteps]].
      discriminate.
Qed.

Lemma cycle_length n node : length (cycle n node) = n.
Proof. revert node. induction n as [|n IH]; intros node; simpl; [done|]. by rewrite IH. Qed.

End Runs.

(** ** Turns on several threads *)

Section Turns.
Context {W : Type}.
Implicit Types (self : Agent W) (env : Env W) (state update : AgentState).
Implicit Types (saver : gmap string (list AgentState)).

Lemma get_history_lookup thread_id saver1 saver2 :
  saver1 !! thread_id = saver2 !! thread_id ->
  get_history thread_id saver1 = get_history thread_id saver2.
Proof. intros H. unfold get_history, load. by rewrite H. Qed.

(** The history of a thread after turns on any threads: its history before,
    then what the turns on it committed. *)
Lemma submit_all_history fuel self turns saver env thread_id :
  let s := submit_all fuel self turns saver env in
  get_history thread_id (saver_end s)
  = get_history thread_id saver ++ contributions thread_id turns (runs s).
Proof.
  revert saver env.
  induction turns as [|[th input] rest IH]; intros saver env s; subst s.
  - simpl. unfold contributions. simpl. by rewrite app_nil_r.
  - simpl. rewrite IH. unfold contributions. simpl.
    destruct (decide (th = thread_id)) as [->|Hne].
    + by rewrite graph_stream_history, app_assoc.
    + simpl. f_equal. apply get_history_lookup. by apply graph_stream_frame.
Qed.

(** Turns on other threads leave the checkpoints of a thread as they are. *)
Lemma submit_all_frame fuel self turns saver env thread_id :
  thread_id ∉ turns.*1 ->
  saver_end (submit_all fuel self turns saver env) !! thread_id = saver !! thread_id.
Proof.
  revert saver env.
  induction turns as [|[th input] rest IH]; intros saver env Hnot; [done|].
  simpl in *. apply not_elem_of_cons in Hnot as [Hne Hnot].
  rewrite IH by done. by apply graph_stream_frame.
Qed.

(** [take_action], by what it finds at the end of the state. *)
Lemma take_action_shape self state env :
  take_action self state env =
  match last_message state with
  | inl e => (inl e, env)
  | inr m =>
      match get_tool_calls m with
      | inl e => (inl e, env)
      | inr tool_calls =>
          match for_tool_calls self tool_calls [] env with
          | (inl e, env1) => (inl e, env1)
          | (inr results, env1) =>
              (inr {| messages := results |},
               {| world := world env1; events := events env1;
                  stdout := stdout env1 ++ [BackToTheModel] |})
          end
      end
  end.
Proof.
  unfold take_action, bind, lift, print, ret.
  destruct (last_message state) as [e|m]; [done|].
  destruct (get_tool_calls m) as [e|tool_calls]; [done|].
  by destruct (for_tool_calls self tool_calls [] env) as [[e|results] env1].
Qed.

Lemma for_tool_calls_oblivious self tool_calls results env1 env2 :
  oblivious self ->
  fst (for_tool_calls self tool_calls results env1)
  = fst (for_tool_calls self tool_calls results env2).
Proof.
  intros [_ Htools]. revert results env1 env2.
  induction tool_calls as [|t rest IH]; intros results env1 env2; [done|].
  destruct (tools self !! call_name t) as [tool|] eqn:Htool.
  - rewrite !(for_tool_calls_cons _ _ _ _ _ tool Htool), !tool_invoke_unfold. simpl.
    pose proof (Htools _ tool (call_args t) (world env1) (world env2) Htool) as Hrun.
    destruct (tool_run tool (call_args t) (world env1)) as [[e1|r1] w1],
             (tool_run tool (call_args t) (world env2)) as [[e2|r2] w2];
      simpl in Hrun; try discriminate.
    + by injection Hrun as ->.
    + injection Hrun as ->. apply IH.
  - by rewrite !for_tool_calls_unknown.
Qed.

(** With a model and tools that answer by their input alone, what a step
    returns depends on the state only. *)
Lemma run_node_oblivious self node state env1 env2 :
  oblivious self ->
  fst (run_node self node state env1) = fst (run_node self node state env2).
Proof.
  intros Hobl. destruct node; simpl.
  - rewrite !call_openai_unfold.
    destruct Hobl as [Hmodel _].
    specialize (Hmodel (model_input self state) (world env1) (world env2)).
    destruct (model self _ (world env1)) as [[e1|r1] w1],
             (model self _ (world env2)) as [[e2|r2] w2];
      simpl in *; congruence.
  - rewrite !take_action_shape.
    destruct (last_message state) as [e|m]; [done|].
    destruct (get_tool_calls m) as [e|tool_calls]; [done|].
    pose proof (for_tool_calls_oblivious self tool_calls [] env1 env2 Hobl) as H.
    destruct (for_tool_calls self tool_calls [] env1) as [[e1|r1] w1],
             (for_tool_calls self tool_calls [] env2) as [[e2|r2] w2];
      simpl in *; congruence.
Qed.

Lemma pregel_oblivious fuel self thread_id node state saver1 saver2 env1 env2 :
  oblivious self ->
  outcome (pregel fuel self thread_id node state saver1 env1)
  = outcome (pregel fuel self thread_id node state saver2 env2) /\
  steps (pregel fuel self thread_id node state saver1 env1)
  = steps (pregel fuel self thread_id node state saver2 env2).
Proof.
  intros Hobl. revert node state saver1 saver2 env1 env2.
  induction fuel as [|fuel IH]; intros node state saver1 saver2 env1 env2; [done|].
  pose proof (run_node_oblivious self node state env1 env2 Hobl) as Hnode.
  simpl.
  destruct (run_node self node state env1) as [[e1|u1] env1'],
           (run_node self node state env2) as [[e2|u2] env2'];
    simpl in Hnode; try discriminate.
  - by injection Hnode as ->.
  - injection Hnode as ->.
    destruct (next_node self node (reduce state u2)) as [e|[node'|]]; simpl; try done.
    destruct (IH node' (reduce state u2) (save thread_id state saver1)
                (save thread_id state saver2) env1' env2') as [-> ->].
    done.
Qed.

(** A turn reads the history of its own thread, and nothing else of the
    checkpointer. *)
Lemma graph_stream_oblivious fuel self input thread_id saver1 saver2 env1 env2 :
  oblivious self ->
  get_history thread_id saver1 = get_history thread_id saver2 ->
  get_history thread_id
    (saver_after (graph_stream fuel self input thread_id saver1 env1))
  = get_history thread_id
      (saver_after (graph_stream fuel self input thread_id saver2 env2)).
Proof.
  intros Hobl Hhist.
  rewrite !graph_stream_history, Hhist. f_equal.
  unfold committed, produced, graph_stream.
  assert (Hstate : reduce (load thread_id saver1) input
                   = reduce (load thread_id saver2) input).
  { unfold reduce. f_equal. unfold get_history in Hhist. by rewrite Hhist. }
  rewrite Hstate.
  by destruct (pregel_oblivious fuel self thread_id entry_point
                 (reduce (load thread_id saver2) input) saver1 saver2 env1 env2 Hobl)
    as [_ ->].
Qed.

(** The history of a thread after turns on any threads is its history after
    the turns on it alone. *)
Lemma submit_all_projection fuel self turns thread_id saver1 saver2 env1 env2 :
  oblivious self ->
  get_history thread_id saver1 = get_history thread_id saver2 ->
  get_history thread_id (saver_end (submit_all fuel self turns saver1 env1))
  = get_history thread_id
      (saver_end (submit_all fuel self (turns_on thread_id turns) saver2 env2)).
Proof.
  intros Hobl. revert saver1 saver2 env1 env2.
  induction turns as [|[th input] rest IH]; intros saver1 saver2 env1 env2 Hhist.
  - done.
  - unfold turns_on. rewrite filter_cons. simpl.
    destruct (decide (th = thread_id)) as [->|Hne]; simpl.
    + apply IH. by apply graph_stream_oblivious.
    + apply IH. rewrite <- Hhist.
      apply get_history_lookup. by apply graph_stream_frame.
Qed.

End Turns.

(** ** The append-only log *)

Section AppendOnly.
Context {W : Type}.
Implicit Types (self : Agent W) (env : Env W) (state update : AgentState).
Implicit Types (saver : gmap string (list AgentState)).

Lemma append_only_snoc (checkpoints : list AgentState) (newest : AgentState) :
  append_only checkpoints ->
  (forall latest, last checkpoints = Some latest ->
     messages latest `prefix_of` messages newest) ->
  append_only (checkpoints ++ [newest]).
Proof.
  intros Hold Hlast i older newer Hi HSi.
  destruct (decide (S i < length checkpoints)) as [Hlt|Hge].
  - rewrite lookup_app_l in Hi by lia. rewrite lookup_app_l in HSi by lia.
    by eapply Hold.
  - assert (S i = length checkpoints) as Hlen.
    { apply lookup_lt_Some in HSi. rewrite length_app in HSi. simpl in HSi. lia. }
    rewrite lookup_app_l in Hi by lia.
    rewrite lookup_app_r in HSi by lia.
    replace (S i - length checkpoints) with 0 in HSi by lia.
    injection HSi as <-.
    apply Hlast. rewrite last_lookup. by rewrite <- Hlen.
Qed.

Lemma pregel_append_only fuel self thread_id node state saver env :
  append_only (list_checkpoints thread_id saver) ->
  (forall latest, last (list_checkpoints thread_id saver) = Some latest ->
     messages latest `prefix_of` messages state) ->
  append_only (list_checkpoints thread_id
    (saver_after (pregel fuel self thread_id node state saver env))).
Proof.
  revert node state saver env.
  induction fuel as [|fuel IH]; intros node state saver env Hold Hlast.
  all: assert (Hstart : append_only (list_checkpoints thread_id
                          (save thread_id state saver)))
    by (rewrite list_checkpoints_save; by apply append_only_snoc).
  - exact Hstart.
  - assert (Hnew : forall update,
      append_only (list_checkpoints thread_id
        (save thread_id (reduce state update) (save thread_id state saver)))).
    { intros update. rewrite list_checkpoints_save.
      apply append_only_snoc; [done|].
      intros latest. rewrite list_checkpoints_save, last_snoc.
      intros [= <-]. by apply prefix_app_r. }
    simpl.
    destruct (run_node self node state env) as [[e|update] env'] eqn:Hnode; simpl;
      [done|].
    destruct (next_node self node (reduce state update)) as [e|[node'|]]; simpl;
      try apply Hnew.
    apply IH; [exact Hstart|].
    intros latest. rewrite list_checkpoints_save, last_snoc.
    intros [= <-]. by apply prefix_app_r.
Qed.

Lemma graph_stream_append_only fuel self input thread_id saver env other :
  append_only (list_checkpoints other saver) ->
  append_only (list_checkpoints other
    (saver_after (graph_stream fuel self input thread_id saver env))).
Proof.
  intros Hold.
  destruct (decide (thread_id = other)) as [<-|Hne].
  - apply pregel_append_only; [done|].
    intros latest Hlatest. rewrite load_last_checkpoint, Hlatest. simpl.
    by apply prefix_app_r.
  - unfold list_checkpoints. by rewrite graph_stream_frame.
Qed.

Lemma submit_all_append_only fuel self turns saver env thread_id :
  append_only (list_checkpoints thread_id saver) ->
  append_only (list_checkpoints thread_id
    (saver_end (submit_all fuel self turns saver env))).
Proof.
  revert saver env.
  induction turns as [|[th input] rest IH]; intros saver env Hold; [done|].
  simpl. apply IH. by apply graph_stream_append_only.
Qed.

(** The history of a thread after turns on it, however they end. *)
Lemma submit_all_same_thread fuel self thread_id inputs saver env :
  let s := submit_all fuel self (map (fun input => (thread_id, input)) inputs) saver env in
  get_history thread_id (saver_end s)
  = get_history thread_id saver
    ++ concat (zip_with (fun input r => messages input ++ produced r) inputs (runs s)).
Proof.
  revert saver env.
  induction inputs as [|input rest IH]; intros saver env s; subst s.
  - simpl. by rewrite app_nil_r.
  - simpl. rewrite IH, graph_stream_history. unfold committed.
    by rewrite <- !app_assoc.
Qed.

(** Every turn is run by the graph, on the history the turns before it have
    left. *)
Lemma submit_all_runs fuel self thread_id inputs saver env i input r :
  let s := submit_all fuel self (map (fun input => (thread_id, input)) inputs) saver env in
  inputs !! i = Some input ->
  runs s !! i = Some r ->
  exists saver_i env_i,
    r = graph_stream fuel self input thread_id saver_i env_i /\
    get_history thread_id saver_i
    = get_history thread_id saver
      ++ concat (zip_with (fun input r => messages input ++ produced r)
                   (take i inputs) (take i (runs s))).
Proof.
  revert saver env i.
  induction inputs as [|input0 rest IH]; intros saver env i s Hi Hr; subst s;
    [done|].
  destruct i as [|i]; simpl in *.
  - injection Hi as ->. injection Hr as <-.
    exists saver, env. split; [done|]. by rewrite app_nil_r.
  - destruct (IH _ _ _ Hi Hr) as (saver_i & env_i & -> & Hhist).
    exists saver_i, env_i. split; [done|].
    rewrite Hhist, graph_stream_history. unfold committed.
    by rewrite <- !app_assoc.
Qed.

Lemma submit_all_runs_length fuel self turns saver env :
  length (runs (submit_all fuel self turns saver env)) = length turns.
Proof.
  revert saver env.
  induction turns as [|[th input] rest IH]; intros saver env; simpl; [done|].
  by rewrite IH.
Qed.

Lemma submit_all_from_loop fuel self turns saver env :
  Forall (fun r => Forall (fun m => from_loop m = true) (produced r))
    (runs (submit_all fuel self turns saver env)).
Proof.
  revert saver env.
  induction turns as [|[th input] rest IH]; intros saver env; simpl; constructor.
  - apply pregel_from_loop.
  - apply IH.
Qed.

End AppendOnly.

(** ** A turn whose tool execution raises *)

Section FailedAction.
Context {W : Type}.
Implicit Types (self : Agent W) (env : Env W) (state update : AgentState).
Implicit Types (saver : gmap string (list AgentState)).

(** If the loop over the tool calls raises after a decision, the run fails
    with that exception, and the thread is left at the checkpoint saved
    after the decision. *)
Lemma failed_action_step fuel self thread_id state saver env content tool_calls
    env1 e env2 :
  call_openai self state env
  = (inr {| messages := [AIMessage content tool_calls] |}, env1) ->
  tool_calls <> [] ->
  for_tool_calls self tool_calls [] env1 = (inl e, env2) ->
  let r := pregel (S (S fuel)) self thread_id llm state saver env in
  outcome r = Failed e /\
  steps r = [(llm, {| messages := [AIMessage content tool_calls] |})] /\
  get_history thread_id (saver_after r)
  = messages state ++ [AIMessage content tool_calls].
Proof.
  intros Hcall Hcalls Hloop r. subst r.
  set (decision := {| messages := [AIMessage content tool_calls] |}) in *.
  pose proof (last_reduce_singleton state (AIMessage content tool_calls)) as Hlast.
  assert (Hnext : next_node self llm (reduce state decision) = inr (To action)).
  { rewrite (next_node_llm _ _ _ _ Hlast). by destruct tool_calls. }
  assert (Hact : run_node self action (reduce state decision) env1 = (inl e, env2)).
  { simpl. rewrite (take_action_unfold _ _ _ _ _ Hlast). by rewrite Hloop. }
  rewrite (pregel_step_to _ _ _ llm _ _ _ _ _ _ Hcall Hnext).
  rewrite (pregel_step_raise _ _ _ _ _ _ _ _ _ Hact). simpl.
  split; [done|]. split; [done|].
  unfold get_history. by rewrite load_save.
Qed.

(** The state a turn starts from: the history of its thread, then its
    input. *)
Lemma first_state_messages thread_id saver input state :
  state = reduce (load thread_id saver) input ->
  messages state = get_history thread_id saver ++ messages input.
Proof. by intros ->. Qed.

End FailedAction.

(** * The claims *)

Section Claims.
Context {W : Type}.
Implicit Types (self : Agent W) (env : Env W) (state update : AgentState).
Implicit Types (saver : gmap string (list AgentState)).

(** C1: after turns submitted one after the other on one thread, however
    each of them ends, the history of the thread is its history before them
    followed, in the order of submission, by each turn's input and the
    messages the loop produced for it, which are assistant and tool messages
    only. There is one run per turn, and it is the run of the graph on that
    turn's input, started on the history the turns before it have left. The
    log is append-only: the history before the turns is a prefix of the
    history after them, and if every checkpoint of the thread extended the
    one before it, this is still so afterwards. *)
Theorem history_is_concatenation_of_turns :
  forall (fuel : nat) self (thread_id : string) (inputs : list AgentState) saver env,
    let s := submit_all fuel self
               (map (fun input => (thread_id, input)) inputs) saver env in
    get_history thread_id (saver_end s)
    = get_history thread_id saver
      ++ concat (zip_with (fun input r => messages input ++ produced r)
                   inputs (runs s)) /\
    length (runs s) = length inputs /\
    (forall i input r,
       inputs !! i = Some input ->
       runs s !! i = Some r ->
       exists saver_i env_i,
         r = graph_stream fuel self input thread_id saver_i env_i /\
         get_history thread_id saver_i
         = get_history thread_id saver
           ++ concat (zip_with (fun input r => messages input ++ produced r)
                        (take i inputs) (take i (runs s)))) /\
    Forall (fun r => Forall (fun m => from_loop m = true) (produced r)) (runs s) /\
    (append_only (list_checkpoints thread_id saver) ->
     append_only (list_checkpoints thread_id (saver_end s))) /\
    get_history thread_id saver `prefix_of` get_history thread_id (saver_end s).
Proof.
  intros fuel self thread_id inputs saver env s.
  split; [apply submit_all_same_thread|].
  split; [subst s; by rewrite submit_all_runs_length, length_map|].
  split; [intros i input r; apply submit_all_runs|].
  split; [apply submit_all_from_loop|].
  split; [apply submit_all_append_only|].
  subst s. rewrite submit_all_history. by apply prefix_app_r.
Qed.

(** C2: after a decision step, the latest message is the assistant message
    the step produced; the edge out of the step leads to the tool execution
    exactly when that message has a non-empty list of tool calls, and to
    [END] exactly when the list is empty; so the run observed after this one
    step has finished, or is about to execute the tools. *)
Theorem decision_routes_on_tool_calls :
  forall self state env update env' (thread_id : string) saver,
    call_openai self state env = (inr update, env') ->
    exists content tool_calls,
      last (messages (reduce state update)) = Some (AIMessage content tool_calls) /\
      (next_node self llm (reduce state update) = inr (To action)
       <-> tool_calls <> []) /\
      (next_node self llm (reduce state update) = inr END <-> tool_calls = []) /\
      outcome (pregel 1 self thread_id llm state saver env)
      = match tool_calls with [] => Finished | _ :: _ => Running action end.
Proof.
  intros self state env update env' thread_id saver Hcall.
  pose proof (call_openai_returns _ _ _ _ _ Hcall) as (reply & _ & -> & _).
  exists (concat_text (chunks reply)), (calls reply).
  pose proof (last_reduce_singleton state
    (AIMessage (concat_text (chunks reply)) (calls reply))) as Hlast.
  pose proof (next_node_llm self _ _ _ Hlast) as Hnext.
  split; [done|]. rewrite Hnext.
  split; [|split].
  - destruct (calls reply); split; intros H; try done.
  - destruct (calls reply); split; intros H; try done.
  - destruct (calls reply) as [|t ts].
    + by rewrite (pregel_step_end 0 self thread_id llm state saver env _ _ Hcall Hnext).
    + by rewrite (pregel_step_to 0 self thread_id llm state saver env _ _ _ Hcall Hnext).
Qed.

(** C3 (as the code has it): on a state that ends on an assistant message
    with tool calls, [take_action], when it returns, returns exactly one
    tool message per call, the i-th message answering the i-th call with the
    id and the name of that call, and the graph appends these messages to
    the state in that order; and it does return when every call names a
    registered tool that answers. It does not return for every such message:
    it raises when a call of the batch fails, the calls before it answered,
    because it names no registered tool or because its tool raised; the tool
    step then fails with that exception and the graph appends no tool
    message, not even for the calls answered before it. *)
Theorem one_tool_message_per_call :
  forall self state content (tool_calls : list ToolCall) env
         (thread_id : string) saver,
    last (messages state) = Some (AIMessage content tool_calls) ->
    (forall update env',
       take_action self state env = (inr update, env') ->
       length (messages update) = length tool_calls /\
       (forall i t, tool_calls !! i = Some t ->
          exists result,
            messages update !! i
            = Some (ToolMessage (call_id t) (call_name t) result)) /\
       messages (reduce state update) = messages state ++ messages update /\
       let r := pregel 1 self thread_id action state saver env in
       steps r = [(action, update)] /\
       get_history thread_id (saver_after r) = messages state ++ messages update) /\
    (Forall (answers self) tool_calls ->
     exists update env', take_action self state env = (inr update, env')) /\
    (forall e env',
       take_action self state env = (inl e, env') ->
       (exists done t rest results env1,
          tool_calls = done ++ t :: rest /\
          for_tool_calls self done [] env = (inr results, env1) /\
          (tools self !! call_name t = None /\ e = KeyError (call_name t) \/
           exists tool w,
             tools self !! call_name t = Some tool /\
             tool_run tool (call_args t) (world env1) = (inl e, w))) /\
       forall fuel,
         let r := pregel (S fuel) self thread_id action state saver env in
         outcome r = Failed e /\
         steps r = [] /\
         get_history thread_id (saver_after r) = messages state).
Proof.
  intros self state content tool_calls env thread_id saver Hlast.
  split; [|split].
  - intros update env' Hact.
    pose proof (take_action_returns _ _ _ _ _ Hact) as (c & ts & Hlast' & Hall).
    rewrite Hlast in Hlast'. injection Hlast' as <- <-.
    split; [symmetry; by eapply Forall2_length|].
    split.
    { intros i t Hi.
      destruct (Forall2_lookup_l _ _ _ _ _ Hall Hi) as (m & Hm & result & ->).
      by exists result. }
    split; [done|].
    assert (Hnext : next_node self action (reduce state update) = inr (To llm))
      by done.
    assert (Hsteps : steps (pregel 1 self thread_id action state saver env)
                     = [(action, update)]).
    { by rewrite (pregel_step_to 0 self thread_id action state saver env _ _ _
                    Hact Hnext). }
    split; [exact Hsteps|].
    rewrite pregel_history. unfold produced. rewrite Hsteps. simpl.
    by rewrite app_nil_r.
  - intros Hanswers.
    rewrite (take_action_unfold _ _ _ _ _ Hlast).
    destruct (for_tool_calls_total self tool_calls [] env Hanswers)
      as (results & env1 & ->).
    by eexists _, _.
  - intros e env' Hact. split.
    + rewrite (take_action_unfold _ _ _ _ _ Hlast) in Hact.
      destruct (for_tool_calls self tool_calls [] env) as [[e0|results] env1] eqn:Hloop;
        [|discriminate].
      injection Hact as <- <-.
      apply for_tool_calls_raises in Hloop
        as (done & t & rest & out & env2 & Heq & Hdone & _ & Hcase).
      by exists done, t, rest, out, env2.
    + intros fuel r.
      assert (Hrun : pregel (S fuel) self thread_id action state saver env
                     = {| outcome := Failed e; steps := [];
                          saver_after := save thread_id state saver;
                          env_after := env' |})
        by exact (pregel_step_raise fuel self thread_id action state saver env
                    e env' Hact).
      subst r. rewrite Hrun. simpl.
      split; [done|]. split; [done|].
      unfold get_history. by rewrite load_save.
Qed.

(** C4 (as the code has it): an exception raised by a tool is not caught.
    When a decision asks for tool calls, the calls before [t] are answered
    and the tool of [t] raises [e], the run fails with [e] itself; nothing
    is saved for the failed step, so the history of the thread is the
    checkpoint saved after the decision: the state the decision was taken
    on followed by the assistant message; for the first decision of a turn,
    that is the history before the turn, the input and the assistant
    message. No tool message is appended, neither for [t] nor for the calls
    answered before it. *)
Theorem tool_exception_ends_the_turn :
  forall (fuel : nat) self input (thread_id : string) state saver env content
         (done : list ToolCall) (t : ToolCall) (rest : list ToolCall)
         env1 results env2 tool e w3,
    call_openai self state env
    = (inr {| messages := [AIMessage content (done ++ t :: rest)] |}, env1) ->
    for_tool_calls self done [] env1 = (inr results, env2) ->
    tools self !! call_name t = Some tool ->
    tool_run tool (call_args t) (world env2) = (inl e, w3) ->
    let r := pregel (S (S fuel)) self thread_id llm state saver env in
    outcome r = Failed e /\
    steps r = [(llm, {| messages := [AIMessage content (done ++ t :: rest)] |})] /\
    get_history thread_id (saver_after r)
    = messages state ++ [AIMessage content (done ++ t :: rest)] /\
    (state = reduce (load thread_id saver) input ->
     r = graph_stream (S (S fuel)) self input thread_id saver env /\
     get_history thread_id (saver_after r)
     = get_history thread_id saver ++ messages input
       ++ [AIMessage content (done ++ t :: rest)]).
Proof.
  intros fuel self input thread_id state saver env content done t rest
    env1 results env2 tool e w3 Hcall Hdone Htool Hrun r.
  assert (Hloop : for_tool_calls self (done ++ t :: rest) [] env1
                  = (inl e,
                     {| world := w3;
                        events := events env2 ++ [ToolStart (tool_name tool)];
                        stdout := stdout env2 ++ [Calling t] |})).
  { rewrite for_tool_calls_app, Hdone.
    rewrite (for_tool_calls_cons _ _ _ _ _ tool Htool), tool_invoke_unfold. simpl.
    by rewrite Hrun. }
  destruct (failed_action_step fuel self thread_id state saver env content
              (done ++ t :: rest) env1 e _ Hcall ltac:(by destruct done) Hloop)
    as (Hout & Hsteps & Hhist).
  fold r in Hout, Hsteps, Hhist.
  split; [exact Hout|]. split; [exact Hsteps|]. split; [exact Hhist|].
  intros Hstate. split; [by subst r state|].
  by rewrite Hhist, (first_state_messages _ _ _ _ Hstate), app_assoc.
Qed.

(** C5 (as the code has it): when a decision asks for tool calls of which
    one, [t], names a tool that is not registered, the run fails in the tool
    step, at the first call of the batch that fails, which is [t] or a call
    before it: with [KeyError] on the name of that call if it names no
    registered tool, or with the exception of its tool if that tool raised;
    so with [KeyError] on the name of [t] when the calls before [t] are
    answered. No tool message is appended, not even for the calls answered
    before the failure; the history of the thread is the state the decision
    was taken on followed by the assistant message with its tool calls, as
    saved after the decision step; for the first decision of a turn, it is
    not the history before the call but that history, the input and the
    assistant message. *)
Theorem unknown_tool_ends_the_turn :
  forall (fuel : nat) self input (thread_id : string) state saver env content
         (tool_calls : list ToolCall) (t : ToolCall) env1,
    call_openai self state env
    = (inr {| messages := [AIMessage content tool_calls] |}, env1) ->
    t ∈ tool_calls ->
    tools self !! call_name t = None ->
    let r := pregel (S (S fuel)) self thread_id llm state saver env in
    (exists done t' rest results env2 e,
       tool_calls = done ++ t' :: rest /\
       t ∈ t' :: rest /\
       for_tool_calls self done [] env1 = (inr results, env2) /\
       outcome r = Failed e /\
       (tools self !! call_name t' = None /\ e = KeyError (call_name t') \/
        exists tool w,
          tools self !! call_name t' = Some tool /\
          tool_run tool (call_args t') (world env2) = (inl e, w))) /\
    (forall done rest results env2,
       tool_calls = done ++ t :: rest ->
       for_tool_calls self done [] env1 = (inr results, env2) ->
       outcome r = Failed (KeyError (call_name t))) /\
    steps r = [(llm, {| messages := [AIMessage content tool_calls] |})] /\
    get_history thread_id (saver_after r)
    = messages state ++ [AIMessage content tool_calls] /\
    (state = reduce (load thread_id saver) input ->
     r = graph_stream (S (S fuel)) self input thread_id saver env /\
     get_history thread_id (saver_after r)
     = get_history thread_id saver ++ messages input
       ++ [AIMessage content tool_calls]).
Proof.
  intros fuel self input thread_id state saver env content tool_calls t env1
    Hcall Hin Hnone r.
  destruct (for_tool_calls_unknown_raises self tool_calls [] env1 t Hin Hnone)
    as (e & env2 & Hloop).
  assert (Hcalls : tool_calls <> []).
  { intros ->. by apply elem_of_nil in Hin. }
  destruct (failed_action_step fuel self thread_id state saver env content
              tool_calls env1 e env2 Hcall Hcalls Hloop)
    as (Hout & Hsteps & Hhist).
  fold r in Hout, Hsteps, Hhist.
  split; [|split; [|split; [exact Hsteps|split; [exact Hhist|]]]].
  - destruct (for_tool_calls_raises _ _ _ _ _ _ Hloop)
      as (done & t' & rest & out & env3 & Heq & Hdone & _ & Hcase).
    exists done, t', rest, out, env3, e.
    split; [exact Heq|]. split; [|done].
    rewrite Heq in Hin. apply elem_of_app in Hin as [Hin|Hin]; [|exact Hin].
    apply for_tool_calls_registered in Hdone.
    destruct (proj1 (Forall_forall _ _) Hdone _ Hin) as [tool Htool].
    congruence.
  - intros done rest results env3 Heq Hdone. rewrite Hout. f_equal.
    rewrite Heq, for_tool_calls_app, Hdone in Hloop.
    rewrite for_tool_calls_unknown in Hloop by done.
    by injection Hloop as <- _.
  - intros Hstate. split; [by subst r state|].
    by rewrite Hhist, (first_state_messages _ _ _ _ Hstate), app_assoc.
Qed.

(** C6: after turns submitted on any threads, in any order, the history of
    a thread is its history before them followed by what the turns on that
    thread committed, and by nothing of the other turns; turns on other
    threads leave its checkpoints as they were; and with a model and tools
    that answer by their input alone, its history is the one it has after
    the turns on it alone. *)
Theorem threads_are_isolated :
  forall (fuel : nat) self (turns : list (string * AgentState)) saver env
         (thread_id : string),
    let s := submit_all fuel self turns saver env in
    get_history thread_id (saver_end s)
    = get_history thread_id saver ++ contributions thread_id turns (runs s) /\
    (thread_id ∉ turns.*1 ->
     list_checkpoints thread_id (saver_end s) = list_checkpoints thread_id saver) /\
    (oblivious self ->
     get_history thread_id (saver_end s)
     = get_history thread_id
         (saver_end (submit_all fuel self (turns_on thread_id turns) saver env))).
Proof.
  intros fuel self turns saver env thread_id s.
  split; [apply submit_all_history|].
  split.
  - intros Hnot. unfold list_checkpoints. subst s. by rewrite submit_all_frame.
  - intros Hobl. by apply submit_all_projection.
Qed.

(** C7 (as the code has it): the token loop prints non-empty fragments
    only, and the fragments of a turn, joined, are the texts of all the
    assistant messages the turn produced, joined in order; when the turn
    finished and every assistant message that asks for tools has an empty
    text, this is exactly the text of the final answer. *)
Theorem token_stream_is_the_assistant_text :
  forall (fuel : nat) self input (thread_id : string) saver env,
    let r := graph_stream fuel self input thread_id saver
               {| world := world env; events := []; stdout := stdout env |} in
    let fragments :=
      print_tokens (astream_events fuel self input thread_id saver env) in
    Forall (fun content => content <> EmptyString) fragments /\
    concat_text fragments = concat_text (map assistant_text (produced r)) /\
    (outcome r = Finished ->
     Forall (fun m => requests_tools m = true -> assistant_text m = EmptyString)
       (produced r) ->
     exists content,
       last (produced r) = Some (AIMessage content []) /\
       concat_text fragments = content).
Proof.
  intros fuel self input thread_id saver env r fragments.
  split; [apply print_tokens_nonempty|].
  assert (Htokens : concat_text fragments
                    = concat_text (map assistant_text (produced r))).
  { subst fragments r. unfold astream_events, graph_stream.
    destruct (pregel_tokens fuel self thread_id entry_point
                (reduce (load thread_id saver) input) saver
                {| world := world env; events := []; stdout := stdout env |})
      as (evs & Hevs & Htok).
    rewrite Hevs. exact Htok. }
  split; [exact Htokens|].
  intros Hfin Hquiet.
  apply pregel_finished in Hfin as (front & content & Hprod & Hfront).
  change (produced r = front ++ [AIMessage content []]) in Hprod.
  exists content. split; [by rewrite Hprod, last_snoc|].
  rewrite Htokens, Hprod, map_app, concat_text_app. simpl.
  rewrite append_empty_r.
  rewrite Hprod in Hquiet. apply Forall_app in Hquiet as [Hquiet _].
  rewrite concat_text_empty; [done|].
  apply Forall_fmap, Forall_forall. intros m Hm. simpl.
  pose proof (proj1 (Forall_forall _ _) Hquiet m Hm) as Hq.
  pose proof (proj1 (Forall_forall _ _) Hfront m Hm) as Hf.
  destruct m as [c|c|c [|t ts]|i n c]; try done.
  - by destruct (Hf c).
  - by apply Hq.
Qed.

(** C8 (as the code has it): with a preamble configured, every call of the
    model in a turn is given the preamble at position 0, followed by the
    history of the thread, the input of the turn and messages the loop
    produced; the loop writes no system message, so the preamble is never
    stored in the thread; and when neither the history nor the input holds a
    system message, the preamble is the only system message the model is
    given, and the history after the turn holds none. *)
Theorem preamble_is_prepended_not_stored :
  forall (fuel : nat) self input (thread_id : string) saver env,
    truthy (system self) = true ->
    let r := graph_stream fuel self input thread_id saver env in
    let base := get_history thread_id saver ++ messages input in
    (exists evs,
       events (env_after r) = events env ++ evs /\
       Forall (preamble_first (system self) base) evs /\
       (Forall (fun m => is_system m = false) base ->
        Forall (one_preamble (system self)) evs)) /\
    Forall (fun m => is_system m = false) (produced r) /\
    (Forall (fun m => is_system m = false) base ->
     Forall (fun m => is_system m = false) (get_history thread_id (saver_after r))).
Proof.
  intros fuel self input thread_id saver env Hsys r base.
  assert (Hloop : forall ms, Forall (fun m => from_loop m = true) ms ->
                             Forall (fun m => is_system m = false) ms).
  { intros ms Hms. eapply Forall_impl; [exact Hms|]. by intros [c|c|c ts|i n c]. }
  assert (Hprod : Forall (fun m => is_system m = false) (produced r)).
  { apply Hloop, pregel_from_loop. }
  split; [|split; [exact Hprod|]].
  - destruct (pregel_model_inputs fuel self thread_id entry_point
                (reduce (load thread_id saver) input) saver env base []
                Hsys) as (evs & Hevs & Hfirst).
    { unfold reduce, operator_add. simpl. by rewrite app_nil_r. }
    { constructor. }
    exists evs. split; [exact Hevs|]. split; [exact Hfirst|].
    intros Hbase. eapply Forall_impl; [exact Hfirst|].
    intros [input0| | | |] Hev; try exact I.
    destruct Hev as (extra & -> & Hextra).
    eexists. split; [reflexivity|].
    apply Forall_app. split; [done|by apply Hloop].
  - intros Hbase. subst r. rewrite graph_stream_history.
    unfold committed. rewrite app_assoc. apply Forall_app. by split.
Qed.

(** C9: no bound on the iterations is enforced. With a model that asks for
    tools on every decision, all of them registered and answering, a turn
    has not finished after any number of steps: however many steps are
    observed, the run is still going, it has gone through all of them, and
    they alternate between the decision and the tool execution. *)
Theorem no_iteration_bound :
  forall (fuel : nat) self input (thread_id : string) saver env,
    always_requests_tools self ->
    let r := graph_stream fuel self input thread_id saver env in
    outcome r <> Finished /\
    (exists next, outcome r = Running next) /\
    fst <$> steps r = cycle fuel llm /\
    length (steps r) = fuel.
Proof.
  intros fuel self input thread_id saver env Hloop r.
  destruct (pregel_cycles fuel self thread_id entry_point
              (reduce (load thread_id saver) input) saver env Hloop)
    as ((next & Hrun) & Hsteps); [discriminate|].
  fold (graph_stream fuel self input thread_id saver env) in Hrun, Hsteps.
  fold r in Hrun, Hsteps.
  split; [by rewrite Hrun|].
  split; [by exists next|].
  split; [exact Hsteps|].
  rewrite <- (length_fmap fst), Hsteps. apply cycle_length.
Qed.

End Claims.

(** * The claims on the agents of [Examples] *)

Import Examples.
Import MoreExamples.

Lemma nothing_saved_is_append_only (thread_id : string) :
  append_only (list_checkpoints thread_id ∅).
Proof. intros i older newer Hi. discriminate. Qed.

Lemma abot_answers : Forall (answers abot) [c1; c3].
Proof.
  repeat constructor; exists search;
    (split; [reflexivity|intros args w; by eexists _, _]).
Qed.

Lemma abot_oblivious : oblivious abot.
Proof.
  split.
  - by intros input [] [].
  - by intros key tool args [] [].
Qed.

Lemma abot_eager_always_requests_tools : always_requests_tools abot_eager.
Proof.
  intros input w. eexists _, _. split; [reflexivity|]. split; [discriminate|].
  repeat constructor. exists search.
  split; [reflexivity|intros args w'; by eexists _, _].
Qed.

(** Two turns of [abot] on thread 1, and a turn of [abot_down], whose
    model cannot be reached. *)
Lemma history_is_concatenation_of_turns_witness :
  get_history "1"
    (saver_end (submit_all 10 abot [("1", question); ("1", follow_up)] ∅ env0))
  = get_history "1" ∅
    ++ concat (zip_with (fun input r => messages input ++ produced r)
                 [question; follow_up]
                 (runs (submit_all 10 abot [("1", question); ("1", follow_up)] ∅ env0))) /\
  length (runs (submit_all 10 abot [("1", question); ("1", follow_up)] ∅ env0)) = 2 /\
  append_only (list_checkpoints "1"
    (saver_end (submit_all 10 abot [("1", question); ("1", follow_up)] ∅ env0))) /\
  get_history "1" (saver_end (submit_all 10 abot_down [("1", question)] ∅ env0))
  = get_history "1" ∅
    ++ concat (zip_with (fun input r => messages input ++ produced r)
                 [question]
                 (runs (submit_all 10 abot_down [("1", question)] ∅ env0))).
Proof.
  pose proof (history_is_concatenation_of_turns 10 abot "1" [question; follow_up]
                ∅ env0) as (Hhist & Hlen & _ & _ & Hlog & _).
  pose proof (history_is_concatenation_of_turns 10 abot_down "1" [question]
                ∅ env0) as (Hdown & _).
  split; [exact Hhist|]. split; [exact Hlen|].
  split; [exact (Hlog (nothing_saved_is_append_only "1"))|exact Hdown].
Defined.

(** The first decision of [abot] asks for tools. *)
Lemma decision_routes_on_tool_calls_witness :
  exists update env',
    call_openai abot question env0 = (inr update, env') /\
    exists content tool_calls,
      last (messages (reduce question update)) = Some (AIMessage content tool_calls) /\
      (next_node abot llm (reduce question update) = inr (To action)
       <-> tool_calls <> []) /\
      (next_node abot llm (reduce question update) = inr END <-> tool_calls = []) /\
      outcome (pregel 1 abot "1" llm question ∅ env0)
      = match tool_calls with [] => Finished | _ :: _ => Running action end.
Proof.
  eexists _, _. split; [reflexivity|].
  eapply decision_routes_on_tool_calls. reflexivity.
Defined.

(** C3 as stated fails: [abot_unknown_tool] asks for a search and for a
    calculator that is not registered; [take_action] raises on the
    calculator, and the history of the thread has the assistant message
    with its two calls and no tool message, not even for the search that
    was answered. The turn of [abot], whose calls are all answered, is as
    C3 says. *)
Lemma calls_are_left_unanswered :
  every_call_answered
    (get_history "1" (saver_after (graph_stream 10 abot question "1" ∅ env0))) /\
  (exists env',
     take_action abot_unknown_tool asked_calculator env0
     = (inl (KeyError "calculator"), env')) /\
  get_history "1" (saver_after (graph_stream 10 abot_unknown_tool question "1" ∅ env0))
  = [HumanMessage "What is the weather in sf?"; AIMessage "" [c1; c2]] /\
  ~ every_call_answered
      (get_history "1"
         (saver_after (graph_stream 10 abot_unknown_tool question "1" ∅ env0))).
Proof.
  assert (Hgood :
    get_history "1" (saver_after (graph_stream 10 abot question "1" ∅ env0))
    = [HumanMessage "What is the weather in sf?"; AIMessage "" [c1; c3];
       ToolMessage "c1" "search" "72F sunny"; ToolMessage "c3" "search" "72F sunny";
       AIMessage answer []]) by (vm_compute; reflexivity).
  assert (Hbad :
    get_history "1" (saver_after (graph_stream 10 abot_unknown_tool question "1" ∅ env0))
    = [HumanMessage "What is the weather in sf?"; AIMessage "" [c1; c2]])
    by (vm_compute; reflexivity).
  split; [|split; [|split; [exact Hbad|]]].
  - rewrite Hgood. clear Hgood Hbad. intros i content tool_calls Hi.
    destruct i as [|[|[|[|[|i]]]]]; cbn in Hi; try discriminate Hi;
      injection Hi as <- <-; cbn.
    + repeat constructor; by eexists.
    + constructor.
  - eexists. vm_compute. reflexivity.
  - rewrite Hbad. clear Hgood Hbad. intros Hall.
    specialize (Hall 1 "" [c1; c2] eq_refl). cbn in Hall.
    apply Forall2_length in Hall. discriminate Hall.
Qed.

(** The two searches [abot] asked for are answered in order and appended;
    the batch of [abot_unknown_tool] fails on the calculator, and nothing
    is appended. *)
Lemma one_tool_message_per_call_witness :
  (exists update env',
     take_action abot asked env0 = (inr update, env') /\
     length (messages update) = 2 /\
     (exists result, messages update !! 0 = Some (ToolMessage "c1" "search" result)) /\
     (exists result, messages update !! 1 = Some (ToolMessage "c3" "search" result)) /\
     get_history "1" (saver_after (pregel 1 abot "1" action asked ∅ env0))
     = messages asked ++ messages update) /\
  (exists env',
     take_action abot_unknown_tool asked_calculator env0
     = (inl (KeyError "calculator"), env') /\
     outcome (pregel 1 abot_unknown_tool "1" action asked_calculator ∅ env0)
     = Failed (KeyError "calculator") /\
     steps (pregel 1 abot_unknown_tool "1" action asked_calculator ∅ env0) = [] /\
     get_history "1"
       (saver_after (pregel 1 abot_unknown_tool "1" action asked_calculator ∅ env0))
     = messages asked_calculator).
Proof.
  split.
  - destruct (one_tool_message_per_call abot asked "" [c1; c3] env0 "1" ∅ eq_refl)
      as (Hreturns & Htotal & _).
    destruct (Htotal abot_answers) as (update & env' & Hact).
    destruct (Hreturns update env' Hact) as (Hlen & Hith & _ & _ & Hhist).
    exists update, env'. split; [exact Hact|]. split; [exact Hlen|].
    split; [exact (Hith 0 c1 eq_refl)|].
    split; [exact (Hith 1 c3 eq_refl)|exact Hhist].
  - destruct (one_tool_message_per_call abot_unknown_tool asked_calculator ""
                [c1; c2] env0 "1" ∅ eq_refl) as (_ & _ & Hraises).
    eexists. split; [vm_compute; reflexivity|].
    eapply Hraises. vm_compute. reflexivity.
Defined.

(** C4 as stated fails: the calculator of [abot_broken_tool] raises, the
    turn fails with that very exception, and the history has no tool
    message, neither for the calculator nor for the search answered before
    it. *)
Lemma tool_exception_is_not_folded :
  outcome (graph_stream 10 abot_broken_tool question "1" ∅ env0)
  = Failed (Raised "ConnectionError") /\
  get_history "1" (saver_after (graph_stream 10 abot_broken_tool question "1" ∅ env0))
  = [HumanMessage "What is the weather in sf?"; AIMessage "" [c1; c2]] /\
  ~ folds_tool_failure
      (graph_stream 10 abot_broken_tool question "1" ∅ env0)
      (get_history "1"
         (saver_after (graph_stream 10 abot_broken_tool question "1" ∅ env0)))
      c2.
Proof.
  split; [vm_compute; reflexivity|]. split; [vm_compute; reflexivity|].
  intros [Hnot _]. by apply (Hnot (Raised "ConnectionError")).
Qed.

(** The turn of [abot_broken_tool]: the search is answered, the calculator
    raises. *)
Lemma tool_exception_ends_the_turn_witness :
  outcome (graph_stream 10 abot_broken_tool question "1" ∅ env0)
  = Failed (Raised "ConnectionError") /\
  steps (graph_stream 10 abot_broken_tool question "1" ∅ env0)
  = [(llm, {| messages := [AIMessage "" [c1; c2]] |})] /\
  get_history "1" (saver_after (graph_stream 10 abot_broken_tool question "1" ∅ env0))
  = get_history "1" ∅ ++ messages question ++ [AIMessage "" [c1; c2]].
Proof.
  edestruct (tool_exception_ends_the_turn 8 abot_broken_tool question "1"
               (reduce (load "1" ∅) question) ∅ env0 "" [c1] c2 [])
    as (Hout & Hsteps & _ & Hturn); [reflexivity..|].
  destruct (Hturn eq_refl) as [_ Hhist].
  split; [exact Hout|]. split; [exact Hsteps|exact Hhist].
Defined.

(** C5 as stated fails: [abot_unknown_tool] asks for a calculator that is
    not registered; the turn fails, and the history of the thread is not
    what it was before the call. *)
Lemma unknown_tool_changes_the_history :
  outcome (graph_stream 10 abot_unknown_tool question "1" ∅ env0)
  = Failed (KeyError "calculator") /\
  get_history "1" ∅ = [] /\
  get_history "1" (saver_after (graph_stream 10 abot_unknown_tool question "1" ∅ env0))
  = [HumanMessage "What is the weather in sf?"; AIMessage "" [c1; c2]] /\
  get_history "1" (saver_after (graph_stream 10 abot_unknown_tool question "1" ∅ env0))
  <> get_history "1" ∅.
Proof.
  split; [vm_compute; reflexivity|]. split; [vm_compute; reflexivity|].
  split; [vm_compute; reflexivity|].
  vm_compute. intros H. discriminate H.
Qed.

(** The turn of [abot_unknown_tool]: the search is answered, the calculator
    is not registered. The turn of [abot_broken_first]: the calculator
    raises before the tool that is not registered is looked up. *)
Lemma unknown_tool_ends_the_turn_witness :
  outcome (graph_stream 10 abot_unknown_tool question "1" ∅ env0)
  = Failed (KeyError "calculator") /\
  steps (graph_stream 10 abot_unknown_tool question "1" ∅ env0)
  = [(llm, {| messages := [AIMessage "" [c1; c2]] |})] /\
  get_history "1" (saver_after (graph_stream 10 abot_unknown_tool question "1" ∅ env0))
  = get_history "1" ∅ ++ messages question ++ [AIMessage "" [c1; c2]] /\
  outcome (graph_stream 10 abot_broken_first question "1" ∅ env0)
  = Failed (Raised "ConnectionError") /\
  get_history "1" (saver_after (graph_stream 10 abot_broken_first question "1" ∅ env0))
  = get_history "1" ∅ ++ messages question ++ [AIMessage "" [c2; c4]].
Proof.
  edestruct (unknown_tool_ends_the_turn 8 abot_unknown_tool question "1"
               (reduce (load "1" ∅) question) ∅ env0 "" [c1; c2] c2)
    as (_ & Hkey & Hsteps & _ & Hturn);
    [reflexivity|apply elem_of_cons; right; apply elem_of_cons; left; reflexivity|reflexivity|].
  destruct (Hturn eq_refl) as [_ Hhist].
  edestruct (unknown_tool_ends_the_turn 8 abot_broken_first question "1"
               (reduce (load "1" ∅) question) ∅ env0 "" [c2; c4] c4)
    as (_ & _ & _ & _ & Hturn');
    [reflexivity|apply elem_of_cons; right; apply elem_of_cons; left; reflexivity|reflexivity|].
  destruct (Hturn' eq_refl) as [_ Hhist'].
  split; [exact (Hkey [c1] [] _ _ eq_refl eq_refl)|].
  split; [exact Hsteps|]. split; [exact Hhist|].
  split; [vm_compute; reflexivity|exact Hhist'].
Defined.

(** Turns on threads 1 and 2, interleaved, seen from thread 2 and from a
    thread 3 that has no turn. *)
Lemma threads_are_isolated_witness :
  get_history "2"
    (saver_end (submit_all 10 abot
       [("1", question); ("2", follow_up); ("1", follow_up)] ∅ env0))
  = get_history "2" (saver_end (submit_all 10 abot [("2", follow_up)] ∅ env0)) /\
  list_checkpoints "3"
    (saver_end (submit_all 10 abot
       [("1", question); ("2", follow_up); ("1", follow_up)] ∅ env0))
  = list_checkpoints "3" ∅.
Proof.
  pose proof (threads_are_isolated 10 abot
                [("1", question); ("2", follow_up); ("1", follow_up)] ∅ env0 "2")
    as (_ & _ & Hproj).
  pose proof (threads_are_isolated 10 abot
                [("1", question); ("2", follow_up); ("1", follow_up)] ∅ env0 "3")
    as (_ & Hframe & _).
  split; [exact (Hproj abot_oblivious)|].
  apply Hframe. vm_compute. intros Hin.
  repeat (apply elem_of_cons in Hin as [Hin|Hin]; [discriminate|]).
  by apply elem_of_nil in Hin.
Defined.

(** C7 as stated fails: [abot_aside] says something next to its request for
    a search; the token loop prints that too, and the fragments of the turn,
    joined, are not the final answer. *)
Lemma tokens_of_a_request_are_printed :
  outcome (graph_stream 10 abot_aside question "4" ∅ env0) = Finished /\
  last (produced (graph_stream 10 abot_aside question "4" ∅ env0))
  = Some (AIMessage answer []) /\
  print_tokens (astream_events 10 abot_aside question "4" ∅ env0)
  = ["Let me "; "check."; "It is 72F"; " and sunny in SF."]%string /\
  concat_text (print_tokens (astream_events 10 abot_aside question "4" ∅ env0))
  <> answer.
Proof.
  split; [vm_compute; reflexivity|]. split; [vm_compute; reflexivity|].
  split; [vm_compute; reflexivity|].
  vm_compute. intros H. discriminate H.
Qed.

(** The turn of [abot], whose request for tools comes with no text. *)
Lemma token_stream_is_the_assistant_text_witness :
  exists content,
    last (produced (graph_stream 10 abot question "4" ∅ env0))
    = Some (AIMessage content []) /\
    concat_text (print_tokens (astream_events 10 abot question "4" ∅ env0))
    = content.
Proof.
  pose proof (token_stream_is_the_assistant_text 10 abot question "4" ∅ env0)
    as (_ & _ & Hfinal).
  apply Hfinal.
  - reflexivity.
  - vm_compute. repeat constructor; intros; congruence.
Defined.

(** C8 as stated fails: [abot] has a preamble, and after a turn the stored
    state of the thread starts with the question; it holds no system
    message. *)
Lemma preamble_is_not_stored :
  truthy (system abot) = true /\
  get_history "1" (saver_after (graph_stream 10 abot question "1" ∅ env0)) !! 0
  = Some (HumanMessage "What is the weather in sf?") /\
  Forall (fun m => is_system m = false)
    (get_history "1" (saver_after (graph_stream 10 abot question "1" ∅ env0))) /\
  ~ stores_preamble abot
      (get_history "1" (saver_after (graph_stream 10 abot question "1" ∅ env0))).
Proof.
  split; [reflexivity|]. split; [vm_compute; reflexivity|].
  split; [vm_compute; repeat constructor|].
  unfold stores_preamble. vm_compute. intros H. discriminate H.
Qed.

(** The turn of [abot]: what the model is given, and what is stored. *)
Lemma preamble_is_prepended_not_stored_witness :
  (exists evs,
     events (env_after (graph_stream 10 abot question "1" ∅ env0))
     = events env0 ++ evs /\
     Forall (preamble_first (system abot) (get_history "1" ∅ ++ messages question))
       evs /\
     Forall (one_preamble (system abot)) evs) /\
  Forall (fun m => is_system m = false)
    (get_history "1" (saver_after (graph_stream 10 abot question "1" ∅ env0))).
Proof.
  pose proof (preamble_is_prepended_not_stored 10 abot question "1" ∅ env0 eq_refl)
    as ((evs & Hevs & Hfirst & Hone) & _ & Hstored).
  assert (Hbase : Forall (fun m => is_system m = false)
                    (get_history "1" ∅ ++ messages question)).
  { vm_compute. repeat constructor. }
  split; [|exact (Hstored Hbase)].
  exists evs. split; [exact Hevs|]. split; [exact Hfirst|exact (Hone Hbase)].
Defined.

(** Seven steps of [abot_eager], which asks for a search on every call. *)
Lemma no_iteration_bound_witness :
  outcome (graph_stream 7 abot_eager question "1" ∅ env0) <> Finished /\
  (exists next, outcome (graph_stream 7 abot_eager question "1" ∅ env0) = Running next) /\
  fst <$> steps (graph_stream 7 abot_eager question "1" ∅ env0) = cycle 7 llm /\
  length (steps (graph_stream 7 abot_eager question "1" ∅ env0)) = 7.
Proof.
  exact (no_iteration_bound 7 abot_eager question "1" ∅ env0
           abot_eager_always_requests_tools).
Defined.

(** * More properties of the notebooks *)

(** ** [flatten], continued *)

(** X1: [flatten] neither loses nor invents an element: something is in the
    flat list exactly when it is in a row of the matrix, and the flat list
    is as long as the rows together. *)
Theorem flatten_keeps_elements :
  forall (A : Type) (matrix : list (list A)) (x : A),
    (x ∈ flatten matrix <-> exists row, row ∈ matrix /\ x ∈ row) /\
    length (flatten matrix) = sum_list (length <$> matrix).
Proof.
  intros A matrix x. rewrite flatten_concat. split.
  - induction matrix as [|row matrix IH]; simpl.
    + split; [by intros ?%elem_of_nil|]. by intros (row & ?%elem_of_nil & _).
    + rewrite elem_of_app, IH. split.
      * intros [Hx|(row' & Hrow & Hx)].
        -- exists row. split; [left|done].
        -- exists row'. split; [by right|done].
      * intros (row' & Hrow & Hx).
        apply elem_of_cons in Hrow as [->|Hrow]; [by left|].
        right. by exists row'.
  - induction matrix as [|row matrix IH]; simpl; [done|].
    by rewrite length_app, IH.
Qed.

(** X2: flattening undoes the wrapping of each element in a row of its own,
    rows that are empty do not count, and a function may be applied to the
    elements before or after flattening. *)
Theorem flatten_of_rows :
  forall (A B : Type) (l : list A) (matrix : list (list A)) (f : A -> B),
    flatten ((fun x => [x]) <$> l) = l /\
    flatten (filter (fun row => row <> []) matrix) = flatten matrix /\
    flatten (map (map f) matrix) = map f (flatten matrix).
Proof.
  intros A B l matrix f. rewrite !flatten_concat. split; [|split].
  - induction l as [|x l IH]; simpl; [done|]. by f_equal.
  - induction matrix as [|row matrix IH]; [done|].
    destruct row as [|x row].
    + rewrite filter_cons_False by (intros H; by apply H). exact IH.
    + rewrite filter_cons_True by done. simpl. by rewrite IH.
  - induction matrix as [|row matrix IH]; simpl; [done|].
    by rewrite map_app, IH.
Qed.

(** ** The tools of an agent *)

Section Registry.
Context {W : Type}.
Implicit Types (self : Agent W) (env : Env W) (state update : AgentState).

Lemma tools_by_name_from (tool_list : list (BaseTool W))
    (d : gmap string (BaseTool W)) (key : string) :
  foldl (fun d t => <[tool_name t := t]> d) d tool_list !! key
  = match last (filter (fun t => tool_name t = key) tool_list) with
    | Some tool => Some tool
    | None => d !! key
    end.
Proof.
  revert d. induction tool_list as [|t tool_list IH]; intros d; [done|].
  simpl. rewrite IH.
  destruct (decide (tool_name t = key)) as [Heq|Hne].
  - rewrite filter_cons_True by done. rewrite last_cons.
    destruct (last (filter _ tool_list)); [done|].
    by rewrite <- Heq, lookup_insert_eq.
  - rewrite filter_cons_False by done.
    destruct (last (filter _ tool_list)); [done|].
    by rewrite lookup_insert_ne.
Qed.

(** X3: the agent keeps its tools by name, and of several tools with one
    name it keeps the last: looking a name up gives the last tool of the
    list with that name; what is found under a name has that name and is a
    tool of the list; and nothing is found exactly when no tool of the list
    has the name. *)
Theorem registry_keeps_last_of_each_name :
  forall (chat : ChatModel W) (tool_list : list (BaseTool W)) (prompt key : string),
    tools (Agent_init chat tool_list prompt) !! key
    = last (filter (fun t => tool_name t = key) tool_list) /\
    (forall tool,
       tools (Agent_init chat tool_list prompt) !! key = Some tool ->
       tool_name tool = key /\ tool ∈ tool_list) /\
    (tools (Agent_init chat tool_list prompt) !! key = None
     <-> Forall (fun t => tool_name t <> key) tool_list).
Proof.
  intros chat tool_list prompt key. simpl. unfold tools_by_name.
  rewrite tools_by_name_from, lookup_empty.
  set (found := filter (fun t => tool_name t = key) tool_list).
  assert (Hlast : match last found with Some tool => Some tool | None => None end
                  = last found) by by destruct (last found).
  rewrite Hlast. split; [done|]. split.
  - intros tool Htool. apply last_Some_elem_of in Htool.
    by apply list_elem_of_filter in Htool.
  - rewrite last_None. split.
    + intros Hnil. apply Forall_forall. intros t Ht Hname.
      assert (t ∈ found) as Hin by by apply list_elem_of_filter.
      rewrite Hnil in Hin. by apply elem_of_nil in Hin.
    + intros Hall. destruct found as [|t found'] eqn:Hfound; [done|].
      assert (t ∈ filter (fun t => tool_name t = key) tool_list) as Hin.
      { fold found. rewrite Hfound. left. }
      apply list_elem_of_filter in Hin as [Hname Hin].
      by destruct (proj1 (Forall_forall _ _) Hall t Hin).
Qed.

End Registry.

(** ** What [take_action] prints, and when it stops *)

Section ToolLoop.
Context {W : Type}.
Implicit Types (self : Agent W) (env : Env W) (state update : AgentState).

Lemma for_tool_calls_stdout self tool_calls results env res env' :
  for_tool_calls self tool_calls results env = (res, env') ->
  match res with
  | inr _ => stdout env' = stdout env ++ map Calling tool_calls
  | inl _ =>
      exists k, k < length tool_calls /\
        stdout env' = stdout env ++ map Calling (take (S k) tool_calls)
  end.
Proof.
  revert results env.
  induction tool_calls as [|t rest IH]; intros results env H.
  - simpl in H. injection H as <- <-. simpl. by rewrite app_nil_r.
  - destruct (tools self !! call_name t) as [tool|] eqn:Htool.
    + rewrite (for_tool_calls_cons _ _ _ _ _ tool Htool), tool_invoke_unfold in H.
      simpl in H.
      destruct (tool_run tool _ _) as [[e|result] w].
      * injection H as <- <-. exists 0. simpl. split; [lia|done].
      * apply IH in H. simpl in H. destruct res as [e|out].
        -- destruct H as (k & Hk & Hout). exists (S k). split; [simpl; lia|].
           rewrite Hout. by rewrite <- app_assoc.
        -- rewrite H. by rewrite <- app_assoc.
    + rewrite for_tool_calls_unknown in H by done.
      injection H as <- <-. exists 0. simpl. split; [lia|done].
Qed.

(** X4: [take_action] announces every call before it looks the tool up.
    When it returns, it has printed one [Calling] line per call, in the
    order of the calls, and then [Back to the model!]. When it raises, it
    stopped at a call [t] of the batch: the calls before [t] were answered,
    [t] names no registered tool or its tool raised, and what has been
    printed is the [Calling] lines of the calls before [t] and of [t]
    itself, and neither a line for a call after [t] nor
    [Back to the model!]. *)
Theorem take_action_prints :
  forall self state content (tool_calls : list ToolCall) env,
    last (messages state) = Some (AIMessage content tool_calls) ->
    (forall update env',
       take_action self state env = (inr update, env') ->
       stdout env' = stdout env ++ map Calling tool_calls ++ [BackToTheModel]) /\
    (forall e env',
       take_action self state env = (inl e, env') ->
       exists done t rest results env1,
         tool_calls = done ++ t :: rest /\
         for_tool_calls self done [] env = (inr results, env1) /\
         Forall2 answer_to done results /\
         (tools self !! call_name t = None /\ e = KeyError (call_name t) \/
          exists tool w,
            tools self !! call_name t = Some tool /\
            tool_run tool (call_args t) (world env1) = (inl e, w)) /\
         stdout env' = stdout env ++ map Calling (done ++ [t])).
Proof.
  intros self state content tool_calls env Hlast.
  rewrite (take_action_unfold _ _ _ _ _ Hlast).
  destruct (for_tool_calls self tool_calls [] env) as [[e|results] env1] eqn:Hloop;
    split; intros ? env' H; try discriminate; injection H as <- <-.
  - apply for_tool_calls_raises in Hloop
      as (done & t & rest & out & env2 & Heq & Hdone & Hout & Hcase).
    exists done, t, rest, out, env2.
    split; [exact Heq|]. split; [exact Hdone|].
    split.
    { apply for_tool_calls_returns in Hdone as (new & -> & Hnew). exact Hnew. }
    split; [exact Hcase|].
    apply for_tool_calls_stdout in Hdone. simpl in Hdone.
    by rewrite Hout, Hdone, map_app, app_assoc.
  - apply for_tool_calls_stdout in Hloop. simpl in *.
    by rewrite Hloop, app_assoc.
Qed.

(** X5: [take_action] stops at the first call that fails. If a batch of
    calls makes it raise, then any batch that starts with these calls makes
    it raise the same exception, with the same world, the same events and
    the same lines printed: the calls after the one that failed are never
    invoked. *)
Theorem take_action_stops_at_first_failure :
  forall self state longer content content' (front rest : list ToolCall)
         env e env',
    last (messages state) = Some (AIMessage content front) ->
    last (messages longer) = Some (AIMessage content' (front ++ rest)) ->
    take_action self state env = (inl e, env') ->
    take_action self longer env = (inl e, env').
Proof.
  intros self state longer content content' front rest env e env'
    Hlast Hlonger.
  rewrite (take_action_unfold _ _ _ _ _ Hlast).
  rewrite (take_action_unfold _ _ _ _ _ Hlonger).
  rewrite for_tool_calls_app.
  by destruct (for_tool_calls self front [] env) as [[e0|results] env1].
Qed.

End ToolLoop.

(** ** The cells that print the streams *)

(** X6: the token loop prints the contents of the chunks of the
    [on_chat_model_stream] events that are not empty, in the order of the
    stream; what it prints for a stream in two parts is what it prints for
    the first, then for the second; and events of any other kind make it
    print nothing. *)
Theorem token_loop_prints_stream_contents :
  forall (evs evs' : list Event),
    print_tokens evs = filter (fun c => truthy c = true) (stream_contents evs) /\
    print_tokens (evs ++ evs') = print_tokens evs ++ print_tokens evs' /\
    (Forall (fun event => event_kind event <> "on_chat_model_stream") evs ->
     print_tokens evs = []).
Proof.
  intros evs evs'. split; [|split; [apply print_tokens_app|]].
  - rewrite print_tokens_concat. unfold stream_contents.
    induction evs as [|[input|c|m|n|n] evs IH]; simpl; rewrite ?IH; try done.
    unfold on_event. simpl.
    destruct (truthy c) eqn:Hc.
    + by rewrite filter_cons_True.
    + rewrite filter_cons_False; [done|]. by rewrite Hc.
  - intros Hother. apply print_tokens_silent.
    eapply Forall_impl; [exact Hother|].
    intros [input|c|m|n|n] Hkind; try done.
Qed.

(** ** The shape of a run *)

Section RunShape.
Context {W : Type}.
Implicit Types (self : Agent W) (env : Env W) (state update : AgentState).
Implicit Types (saver : gmap string (list AgentState)).

Lemma paired_decision content tool_calls (rest : list (Node * AgentState)) :
  match rest with
  | [] => True
  | (action, observation) :: rest' =>
      tool_calls <> [] /\
      Forall2 answer_to tool_calls (messages observation) /\
      paired rest'
  | (llm, _) :: _ => False
  end ->
  paired ((llm, {| messages := [AIMessage content tool_calls] |}) :: rest).
Proof. intros H. by exists content, tool_calls. Qed.

Lemma pregel_paired fuel self thread_id :
  (forall state saver env,
     paired (steps (pregel fuel self thread_id llm state saver env))) /\
  (forall state saver env content tool_calls,
     last (messages state) = Some (AIMessage content tool_calls) ->
     match steps (pregel fuel self thread_id action state saver env) with
     | [] => True
     | (action, observation) :: rest =>
         Forall2 answer_to tool_calls (messages observation) /\ paired rest
     | (llm, _) :: _ => False
     end).
Proof.
  induction fuel as [|fuel [IHllm IHaction]]; [by split|]. split.
  - intros state saver env.
    destruct (run_node self llm state env) as [[e|update] env'] eqn:Hnode.
    { by rewrite (pregel_step_raise _ _ _ _ _ _ _ _ _ Hnode). }
    pose proof Hnode as Hcall. simpl in Hcall.
    apply call_openai_returns in Hcall as (reply & _ & -> & _).
    set (content := concat_text (chunks reply)) in *.
    pose proof (last_reduce_singleton state (AIMessage content (calls reply))) as Hlast.
    pose proof (next_node_llm self _ _ _ Hlast) as Hnext.
    destruct (calls reply) as [|t ts] eqn:Hcalls.
    + rewrite (pregel_step_end _ _ _ _ _ _ _ _ _ Hnode Hnext). simpl.
      by exists content, [].
    + rewrite (pregel_step_to _ _ _ _ _ _ _ _ _ _ Hnode Hnext).
      cbn [steps]. apply paired_decision.
      specialize (IHaction _ (save thread_id state saver) env' _ _ Hlast).
      by destruct (steps _) as [|[[|] observation] rest].
  - intros state saver env content tool_calls Hlast.
    destruct (run_node self action state env) as [[e|update] env'] eqn:Hnode.
    { by rewrite (pregel_step_raise _ _ _ _ _ _ _ _ _ Hnode). }
    pose proof Hnode as Hact. simpl in Hact.
    apply take_action_returns in Hact as (c & ts & Hlast' & Hall).
    rewrite Hlast in Hlast'. injection Hlast' as <- <-.
    assert (Hnext : next_node self action (reduce state update) = inr (To llm))
      by done.
    rewrite (pregel_step_to _ _ _ _ _ _ _ _ _ _ Hnode Hnext).
    cbn [steps]. split; [done|apply IHllm].
Qed.

Lemma pregel_finished_steps fuel self thread_id node state saver env :
  let r := pregel fuel self thread_id node state saver env in
  outcome r = Finished ->
  exists front content,
    steps r = front ++ [(llm, {| messages := [AIMessage content []] |})].
Proof.
  revert node state saver env.
  induction fuel as [|fuel IH]; intros node state saver env r; subst r.
  - discriminate.
  - destruct (run_node self node state env) as [[e|update] env'] eqn:Hnode.
    + rewrite (pregel_step_raise _ _ _ _ _ _ _ _ _ Hnode). discriminate.
    + destruct (next_node self node (reduce state update)) as [e|[node'|]] eqn:Hnext.
      * simpl. rewrite Hnode, Hnext. discriminate.
      * rewrite (pregel_step_to _ _ _ _ _ _ _ _ _ _ Hnode Hnext). simpl.
        intros Hfin. apply IH in Hfin as (front & content & ->).
        by exists ((node, update) :: front), content.
      * rewrite (pregel_step_end _ _ _ _ _ _ _ _ _ Hnode Hnext). simpl. intros _.
        destruct node; [simpl in Hnode|simpl in Hnext; discriminate].
        apply call_openai_returns in Hnode as (reply & _ & -> & _).
        rewrite (next_node_llm _ _ _ _ (last_reduce_singleton _ _)) in Hnext.
        destruct (calls reply) as [|t ts] eqn:Hcalls; [|discriminate].
        by exists [], (concat_text (chunks reply)).
Qed.

(** X8: the step events of a turn go by pairs. A turn starts on a decision;
    a decision writes one assistant message; if that message asks for
    tools, the next step, if there is one, is the tool execution, which
    writes the answers to its calls, one per call and in their order, and
    the step after it is a decision again; if it asks for none, the
    decision is the last step. A turn that finished ends on a decision
    without tool calls. *)
Theorem steps_go_by_pairs :
  forall (fuel : nat) self input (thread_id : string) saver env,
    let r := graph_stream fuel self input thread_id saver env in
    paired (steps r) /\
    (outcome r = Finished ->
     exists front content,
       steps r = front ++ [(llm, {| messages := [AIMessage content []] |})]).
Proof.
  intros fuel self input thread_id saver env r. split.
  - apply (pregel_paired fuel self thread_id).
  - apply pregel_finished_steps.
Qed.

(** X9: after a turn that finished, the history of the thread ends on an
    assistant message without tool calls, the answer, and [exists_action]
    on the stored state is [False]. *)
Theorem finished_turn_ends_on_the_answer :
  forall (fuel : nat) self input (thread_id : string) saver env,
    let r := graph_stream fuel self input thread_id saver env in
    outcome r = Finished ->
    exists content,
      last (get_history thread_id (saver_after r)) = Some (AIMessage content []) /\
      exists_action self (load thread_id (saver_after r)) = inr false.
Proof.
  intros fuel self input thread_id saver env r Hfin.
  assert (Hhist : exists content front,
    get_history thread_id (saver_after r) = front ++ [AIMessage content []]).
  { subst r. rewrite graph_stream_history. unfold committed.
    apply pregel_finished in Hfin as (front & content & Hprod & _).
    fold (graph_stream fuel self input thread_id saver env) in Hprod.
    rewrite Hprod. exists content. eexists. by rewrite !app_assoc. }
  destruct Hhist as (content & front & Hhist).
  exists content.
  assert (Hlast : last (get_history thread_id (saver_after r))
                  = Some (AIMessage content [])).
  { by rewrite Hhist, last_snoc. }
  split; [exact Hlast|].
  unfold exists_action, last_message. unfold get_history in Hlast.
  by rewrite Hlast.
Qed.

End RunShape.

(** ** Tool messages and the calls they answer *)

Section References.
Context {W : Type}.
Implicit Types (self : Agent W) (env : Env W) (state update : AgentState).
Implicit Types (saver : gmap string (list AgentState)).

Lemma references_app_other (history new : list AnyMessage) :
  references_resolve history ->
  Forall (fun m => is_tool m = false) new ->
  references_resolve (history ++ new).
Proof.
  intros Hold Hnew i id name content Hi.
  destruct (decide (i < length history)) as [Hlt|Hge].
  - rewrite lookup_app_l in Hi by done.
    destruct (Hold _ _ _ _ Hi) as (j & text & tool_calls & t & Hj & Hlook & Hrest).
    exists j, text, tool_calls, t. split; [done|].
    split; [|done]. rewrite lookup_app_l by lia. done.
  - rewrite lookup_app_r in Hi by lia.
    apply list_elem_of_lookup_2 in Hi.
    by pose proof (proj1 (Forall_forall _ _) Hnew _ Hi).
Qed.

Lemma references_answers (history new : list AnyMessage) text tool_calls :
  references_resolve history ->
  last history = Some (AIMessage text tool_calls) ->
  Forall2 answer_to tool_calls new ->
  references_resolve (history ++ new).
Proof.
  intros Hold Hlast Hall i id name content Hi.
  destruct (decide (i < length history)) as [Hlt|Hge].
  - rewrite lookup_app_l in Hi by done.
    destruct (Hold _ _ _ _ Hi) as (j & text' & calls' & t & Hj & Hlook & Hrest).
    exists j, text', calls', t. split; [done|].
    split; [|done]. rewrite lookup_app_l by lia. done.
  - rewrite lookup_app_r in Hi by lia.
    destruct (Forall2_lookup_r _ _ _ _ _ Hall Hi) as (t & Ht & result & Heq).
    injection Heq as -> -> _.
    rewrite last_lookup in Hlast.
    assert (length history <> 0) as Hlen.
    { intros Hz. destruct history; [discriminate|]. discriminate. }
    exists (pred (length history)), text, tool_calls, t.
    split; [lia|]. split; [by rewrite lookup_app_l by lia|].
    split; [by eapply list_elem_of_lookup_2|done].
Qed.

Lemma run_node_references self node state env update env' :
  run_node self node state env = (inr update, env') ->
  references_resolve (messages state) ->
  references_resolve (messages (reduce state update)).
Proof.
  intros Hnode Hold. unfold reduce, operator_add. simpl.
  destruct node; simpl in Hnode.
  - apply call_openai_returns in Hnode as (reply & _ & -> & _).
    apply references_app_other; [done|]. by repeat constructor.
  - apply take_action_returns in Hnode as (text & tool_calls & Hlast & Hall).
    by eapply references_answers.
Qed.

Lemma pregel_references fuel self thread_id node state saver env :
  references_resolve (messages state) ->
  references_resolve
    (messages state ++ produced (pregel fuel self thread_id node state saver env)).
Proof.
  revert node state saver env.
  induction fuel as [|fuel IH]; intros node state saver env Hold.
  - unfold produced. simpl. by rewrite app_nil_r.
  - destruct (run_node self node state env) as [[e|update] env'] eqn:Hnode.
    + rewrite (pregel_step_raise _ _ _ _ _ _ _ _ _ Hnode).
      unfold produced. simpl. by rewrite app_nil_r.
    + pose proof (run_node_references _ _ _ _ _ _ Hnode Hold) as Hnew.
      destruct (next_node self node (reduce state update)) as [e|[node'|]] eqn:Hnext.
      * simpl. rewrite Hnode, Hnext. unfold produced. simpl. by rewrite app_nil_r.
      * rewrite (pregel_step_to _ _ _ _ _ _ _ _ _ _ Hnode Hnext).
        unfold produced. simpl. rewrite app_assoc.
        apply (IH node' (reduce state update)). exact Hnew.
      * rewrite (pregel_step_end _ _ _ _ _ _ _ _ _ Hnode Hnext).
        unfold produced. simpl. by rewrite app_nil_r.
Qed.

(** X10: tool messages always refer back to a call. If every tool message
    of the history of a thread carries the id and the name of a tool call of
    an assistant message before it, and the input of a turn holds no tool
    message, this is still so of the history after the turn, however the
    turn ends. *)
Theorem tool_messages_refer_to_earlier_calls :
  forall (fuel : nat) self input (thread_id : string) saver env,
    references_resolve (get_history thread_id saver) ->
    Forall (fun m => is_tool m = false) (messages input) ->
    references_resolve
      (get_history thread_id
         (saver_after (graph_stream fuel self input thread_id saver env))).
Proof.
  intros fuel self input thread_id saver env Hold Hinput.
  rewrite graph_stream_history. unfold committed. rewrite app_assoc.
  apply (pregel_references fuel self thread_id entry_point
           (reduce (load thread_id saver) input) saver env).
  by apply references_app_other.
Qed.

End References.

(** ** What the model is given *)

Section ModelCalls.
Context {W : Type}.
Implicit Types (self : Agent W) (env : Env W) (state update : AgentState).
Implicit Types (saver : gmap string (list AgentState)).

Lemma model_calls_app (evs1 evs2 : list Event) :
  model_calls (evs1 ++ evs2) = model_calls evs1 ++ model_calls evs2.
Proof. unfold model_calls. by rewrite map_app, concat_app. Qed.

Lemma model_calls_chunks (contents : list string) :
  model_calls (map ChatModelStream contents) = [].
Proof. induction contents as [|c contents IH]; [done|exact IH]. Qed.

Lemma model_calls_tool_events (evs : list Event) :
  Forall tool_event evs -> model_calls evs = [].
Proof.
  induction 1 as [|ev evs Hev _ IH]; [done|].
  destruct ev; try done; exact IH.
Qed.

(** A decision calls the model once, with [model_input]; the tool execution
    does not call it. *)
Lemma run_node_model_calls self node state env res env' :
  run_node self node state env = (res, env') ->
  exists evs,
    events env' = events env ++ evs /\
    model_calls evs = match node with
                      | llm => [model_input self state]
                      | action => []
                      end.
Proof.
  destruct node; simpl; intros H.
  - rewrite call_openai_unfold in H.
    destruct (model self _ _) as [[e|reply] w]; injection H as <- <-; simpl;
      eexists; (split; [reflexivity|]); [done|].
    change (ChatModelStart (model_input self state)
            :: map ChatModelStream (chunks reply) ++ [ChatModelEnd _])
      with ([ChatModelStart (model_input self state)]
            ++ map ChatModelStream (chunks reply) ++ [ChatModelEnd
                 (AIMessage (concat_text (chunks reply)) (calls reply))]).
    by rewrite !model_calls_app, model_calls_chunks.
  - apply take_action_events in H as (evs & Hevs & Htool).
    exists evs. split; [done|]. by apply model_calls_tool_events.
Qed.

Lemma state_eta state : {| messages := messages state ++ [] |} = state.
Proof. destruct state. simpl. by rewrite app_nil_r. Qed.

(** The calls of the model in a run: one per decision step, given the state
    the step started from, and one more if the run ended on a decision that
    raised. *)
Lemma pregel_model_calls fuel self thread_id node state saver env :
  let r := pregel fuel self thread_id node state saver env in
  exists evs tail,
    events (env_after r) = events env ++ evs /\
    model_calls evs = decision_inputs self state (steps r) ++ tail /\
    (tail = [] \/
     tail = [model_input self {| messages := messages state ++ produced r |}] /\
     exists e, outcome r = Failed e).
Proof.
  revert node state saver env.
  induction fuel as [|fuel IH]; intros node state saver env r; subst r.
  - exists [], []. rewrite app_nil_r. split; [done|]. split; [done|by left].
  - destruct (run_node self node state env) as [res env'] eqn:Hnode.
    destruct (run_node_model_calls _ _ _ _ _ _ Hnode) as (evs & Hevs & Hcalls).
    destruct res as [e|update].
    + rewrite (pregel_step_raise _ _ _ _ _ _ _ _ _ Hnode). simpl.
      exists evs, (model_calls evs). split; [done|]. split; [done|].
      rewrite Hcalls. destruct node; [right|by left].
      unfold produced. simpl. rewrite state_eta. split; [done|by exists e].
    + assert (Hone : model_calls evs
                     = decision_inputs self state [(node, update)]).
      { simpl. by rewrite app_nil_r. }
      destruct (next_node self node (reduce state update)) as [e|[node'|]] eqn:Hnext.
      * simpl pregel. rewrite Hnode, Hnext. cbn [steps env_after outcome].
        exists evs, []. rewrite app_nil_r. split; [done|]. split; [done|by left].
      * rewrite (pregel_step_to _ _ _ _ _ _ _ _ _ _ Hnode Hnext).
        cbn [steps env_after outcome].
        destruct (IH node' (reduce state update)
                    (save thread_id state saver) env')
          as (evs' & tail & Hevs' & Hcalls' & Htail).
        exists (evs ++ evs'), tail. split.
        { by rewrite Hevs', Hevs, app_assoc. }
        split.
        { rewrite model_calls_app, Hcalls', Hcalls. simpl.
          by rewrite <- app_assoc. }
        destruct Htail as [->|[-> Hfail]]; [by left|right].
        split; [|done]. unfold produced. simpl.
        unfold operator_add. by rewrite app_assoc.
      * rewrite (pregel_step_end _ _ _ _ _ _ _ _ _ Hnode Hnext).
        cbn [steps env_after outcome].
        exists evs, []. rewrite app_nil_r. split; [done|]. split; [done|by left].
Qed.

Lemma pregel_step_stuck fuel self thread_id node state saver env update env' e :
  run_node self node state env = (inr update, env') ->
  next_node self node (reduce state update) = inl e ->
  pregel (S fuel) self thread_id node state saver env
  = {| outcome := Failed e; steps := [(node, update)];
       saver_after := save thread_id (reduce state update) (save thread_id state saver);
       env_after := env' |}.
Proof. intros Hnode Hnext. simpl. by rewrite Hnode, Hnext. Qed.

(** A run that is started calls the model first with the state it starts
    from. *)
Lemma pregel_first_call fuel self thread_id state saver env :
  exists evs rest,
    events (env_after (pregel (S fuel) self thread_id llm state saver env))
    = events env ++ evs /\
    model_calls evs = model_input self state :: rest.
Proof.
  destruct (run_node self llm state env) as [res env'] eqn:Hnode.
  destruct (run_node_model_calls _ _ _ _ _ _ Hnode) as (evs & Hevs & Hcalls).
  destruct res as [e|update].
  - rewrite (pregel_step_raise _ _ _ _ _ _ _ _ _ Hnode). by exists evs, [].
  - destruct (next_node self llm (reduce state update)) as [e|[node'|]] eqn:Hnext.
    + rewrite (pregel_step_stuck _ _ _ _ _ _ _ _ _ _ Hnode Hnext). by exists evs, [].
    + rewrite (pregel_step_to _ _ _ _ _ _ _ _ _ _ Hnode Hnext).
      cbn [env_after].
      destruct (pregel_model_calls fuel self thread_id node' (reduce state update)
                  (save thread_id state saver) env')
        as (evs' & tail & Hevs' & _).
      exists (evs ++ evs'), (model_calls evs'). split.
      * by rewrite Hevs', Hevs, app_assoc.
      * by rewrite model_calls_app, Hcalls.
    + rewrite (pregel_step_end _ _ _ _ _ _ _ _ _ Hnode Hnext). by exists evs, [].
Qed.

Lemma decision_inputs_shape self state (step_events : list (Node * AgentState)) :
  Forall (fun m => from_loop m = true)
    (concat (map (fun step => messages (snd step)) step_events)) ->
  Forall (fun input =>
            exists extra,
              input = model_input self {| messages := messages state ++ extra |} /\
              Forall (fun m => from_loop m = true) extra)
    (decision_inputs self state step_events).
Proof.
  revert state.
  induction step_events as [|[node update] rest IH]; intros state Hloop;
    [constructor|].
  simpl in *. apply Forall_app in Hloop as [Hupdate Hrest].
  apply Forall_app. split.
  - destruct node; constructor; [|constructor].
    exists []. split; [by rewrite state_eta|constructor].
  - eapply Forall_impl; [apply (IH (reduce state update) Hrest)|].
    intros input (extra & -> & Hextra). simpl.
    exists (messages update ++ extra). unfold operator_add.
    split; [by rewrite app_assoc|]. by apply Forall_app.
Qed.

(** X11: each decision sees the whole conversation so far. In a turn, the
    model is called once per decision step, and at each of them it is given
    what [call_openai] makes of the state the step starts from: the history
    of the thread, the input of the turn and the messages of the steps
    before it; a turn that ends on a decision that raised has called the
    model once more, and no other call is made. The first call of a turn
    that is started is given the history and the input. *)
Theorem decisions_see_the_conversation :
  forall (fuel : nat) self input (thread_id : string) saver env,
    let state := reduce (load thread_id saver) input in
    let r := graph_stream fuel self input thread_id saver env in
    exists evs tail,
      events (env_after r) = events env ++ evs /\
      model_calls evs = decision_inputs self state (steps r) ++ tail /\
      (tail = [] \/
       tail = [model_input self {| messages := messages state ++ produced r |}] /\
       exists e, outcome r = Failed e) /\
      (0 < fuel ->
       model_calls evs !! 0
       = Some (model_input self
                 {| messages := get_history thread_id saver ++ messages input |})).
Proof.
  intros fuel self input thread_id saver env state r.
  destruct (pregel_model_calls fuel self thread_id entry_point state saver env)
    as (evs & tail & Hevs & Hcalls & Htail).
  exists evs, tail. split; [exact Hevs|]. split; [exact Hcalls|].
  split; [exact Htail|].
  intros Hfuel. destruct fuel as [|fuel]; [lia|].
  destruct (pregel_first_call fuel self thread_id state saver env)
    as (evs1 & rest & Hevs1 & Hfirst).
  subst r. unfold graph_stream, entry_point in Hevs. fold state in Hevs.
  rewrite Hevs1 in Hevs. apply app_inv_head in Hevs. subst evs1.
  by rewrite Hfirst.
Qed.

(** X12: without a preamble (the default, [system=""]), the model is given
    the conversation as it is: at every call, the history of the thread,
    then the input of the turn, then messages of the loop, and nothing
    before them; so it is given no system message unless the history or the
    input holds one. *)
Theorem without_preamble_the_model_sees_the_conversation :
  forall (fuel : nat) self input (thread_id : string) saver env,
    truthy (system self) = false ->
    let r := graph_stream fuel self input thread_id saver env in
    let base := get_history thread_id saver ++ messages input in
    exists evs,
      events (env_after r) = events env ++ evs /\
      Forall (fun given =>
                exists extra,
                  given = base ++ extra /\
                  Forall (fun m => from_loop m = true) extra)
        (model_calls evs) /\
      (Forall (fun m => is_system m = false) base ->
       Forall (Forall (fun m => is_system m = false)) (model_calls evs)).
Proof.
  intros fuel self input thread_id saver env Hsys r base.
  destruct (pregel_model_calls fuel self thread_id entry_point
              (reduce (load thread_id saver) input) saver env)
    as (evs & tail & Hevs & Hcalls & Htail).
  fold (graph_stream fuel self input thread_id saver env) in Hevs, Hcalls, Htail.
  fold r in Hevs, Hcalls, Htail.
  assert (Hplain : forall st, model_input self st = messages st).
  { intros st. unfold model_input. by rewrite Hsys. }
  assert (Hshape : Forall (fun given =>
                exists extra,
                  given = base ++ extra /\
                  Forall (fun m => from_loop m = true) extra)
        (model_calls evs)).
  { rewrite Hcalls. apply Forall_app. split.
    - eapply Forall_impl;
        [apply decision_inputs_shape, (pregel_from_loop fuel self thread_id)|].
      intros given (extra & -> & Hextra). exists extra. by rewrite Hplain.
    - destruct Htail as [->|[-> _]]; constructor; [|constructor].
      exists (produced r). rewrite Hplain. split; [done|].
      apply pregel_from_loop. }
  exists evs. split; [exact Hevs|]. split; [exact Hshape|].
  intros Hbase. eapply Forall_impl; [exact Hshape|].
  intros given (extra & -> & Hextra). apply Forall_app. split; [done|].
  eapply Forall_impl; [exact Hextra|]. by intros [c|c|c ts|i n c].
Qed.

End ModelCalls.

(** ** How the nodes can fail *)

Section Failures.
Context {W : Type}.
Implicit Types (self : Agent W) (env : Env W) (state update : AgentState).
Implicit Types (saver : gmap string (list AgentState)).

Lemma for_tool_calls_failure self tool_calls results env e env' :
  for_tool_calls self tool_calls results env = (inl e, env') ->
  exists t,
    t ∈ tool_calls /\
    (tools self !! call_name t = None /\ e = KeyError (call_name t) \/
     exists tool w w',
       tools self !! call_name t = Some tool /\
       tool_run tool (call_args t) w = (inl e, w')).
Proof.
  intros H.
  apply for_tool_calls_raises in H
    as (done & t & rest & out & env1 & -> & _ & _ & Hcase).
  exists t. split.
  - apply elem_of_app. right. apply elem_of_cons. by left.
  - destruct Hcase as [Hunknown|(tool & w & Htool & Hrun)]; [by left|right].
    by exists tool, (world env1), w.
Qed.

(** X13: the steps of the graph fail on the model or on a tool only.
    [call_openai] raises what the model raised, and nothing else. After
    [call_openai] has returned, the state ends on the assistant message it
    produced: [exists_action] does not raise and tells whether that message
    has tool calls, and [take_action], if it raises, raises for a call [t]
    of that message: [KeyError] on the name of [t], which is not
    registered, or what the tool of [t] raised. So with a model and tools
    that raise nothing but exceptions of their own, neither node raises
    [IndexError] or [AttributeError] on the states the graph runs it on. *)
Theorem graph_nodes_fail_on_a_tool_or_the_model :
  forall self state env,
    (forall e env',
       call_openai self state env = (inl e, env') ->
       exists w', model self (model_input self state) (world env) = (inl e, w')) /\
    (forall update env1,
       call_openai self state env = (inr update, env1) ->
       exists content tool_calls,
         update = {| messages := [AIMessage content tool_calls] |} /\
         exists_action self (reduce state update) = inr (0 <? length tool_calls) /\
         forall env2 e env3,
           take_action self (reduce state update) env2 = (inl e, env3) ->
           exists t,
             t ∈ tool_calls /\
             (tools self !! call_name t = None /\ e = KeyError (call_name t) \/
              exists tool w w',
                tools self !! call_name t = Some tool /\
                tool_run tool (call_args t) w = (inl e, w'))) /\
    (raises_its_own self ->
     (forall e env',
        call_openai self state env = (inl e, env') -> exists what, e = Raised what) /\
     (forall update env1 env2 e env3,
        call_openai self state env = (inr update, env1) ->
        take_action self (reduce state update) env2 = (inl e, env3) ->
        ((exists what, e = Raised what) \/
         (exists key, e = KeyError key /\ tools self !! key = None)) /\
        e <> IndexError /\
        (forall attr, e <> AttributeError attr))).
Proof.
  intros self state env.
  assert (Hraise : forall e env',
    call_openai self state env = (inl e, env') ->
    exists w', model self (model_input self state) (world env) = (inl e, w')).
  { intros e env' H. rewrite call_openai_unfold in H.
    destruct (model self _ _) as [[e0|reply] w] eqn:Hmodel; [|discriminate].
    injection H as <- _. by exists w. }
  assert (Hreturn : forall update env1,
    call_openai self state env = (inr update, env1) ->
    exists content tool_calls,
      update = {| messages := [AIMessage content tool_calls] |} /\
      exists_action self (reduce state update) = inr (0 <? length tool_calls) /\
      forall env2 e env3,
        take_action self (reduce state update) env2 = (inl e, env3) ->
        exists t,
          t ∈ tool_calls /\
          (tools self !! call_name t = None /\ e = KeyError (call_name t) \/
           exists tool w w',
             tools self !! call_name t = Some tool /\
             tool_run tool (call_args t) w = (inl e, w'))).
  { intros update env1 H.
    apply call_openai_returns in H as (reply & _ & -> & _).
    exists (concat_text (chunks reply)), (calls reply).
    pose proof (last_reduce_singleton state
      (AIMessage (concat_text (chunks reply)) (calls reply))) as Hlast.
    split; [done|]. split.
    - unfold exists_action, last_message. by rewrite Hlast.
    - intros env2 e env3 Hact.
      rewrite (take_action_unfold _ _ _ _ _ Hlast) in Hact.
      destruct (for_tool_calls self (calls reply) [] env2)
        as [[e0|results] env4] eqn:Hloop; [|discriminate].
      injection Hact as <- _. by eapply for_tool_calls_failure. }
  split; [exact Hraise|]. split; [exact Hreturn|].
  intros [Hmodel Htools]. split.
  - intros e env' H. apply Hraise in H as [w' H]. by eapply Hmodel.
  - intros update env1 env2 e env3 Hcall Hact.
    destruct (Hreturn _ _ Hcall) as (content & tool_calls & _ & _ & Hfails).
    destruct (Hfails _ _ _ Hact)
      as (t & _ & [[Hnone ->]|(tool & w & w' & Htool & Hrun)]).
    + split; [right; by exists (call_name t)|by split].
    + destruct (Htools _ _ _ _ _ _ Htool Hrun) as [what ->].
      split; [left; by exists what|by split].
Qed.

End Failures.

(** ** The edge into the tool execution, and the tool execution *)

Section EdgeAndAction.
Context {W : Type}.
Implicit Types (self : Agent W) (env : Env W) (state update : AgentState).

(** X14: [exists_action] and [take_action] read the state the same way.
    On a state without messages both raise [IndexError], and on a state
    whose latest message is not an assistant message both raise
    [AttributeError]; whenever [exists_action] raises, [take_action] raises
    the same exception and has printed nothing, emitted no event and called
    no tool. When [exists_action] is [False], [take_action] returns no
    message and prints only [Back to the model!]; when it is [True], the
    latest message is an assistant message with at least one tool call. *)
Theorem take_action_agrees_with_exists_action :
  forall self state env,
    (messages state = [] -> exists_action self state = inl IndexError) /\
    (forall m, last (messages state) = Some m -> from_loop m = false \/ is_tool m = true ->
       exists_action self state = inl (AttributeError "tool_calls")) /\
    (forall e, exists_action self state = inl e ->
       take_action self state env = (inl e, env)) /\
    (exists_action self state = inr false ->
       take_action self state env
       = (inr {| messages := [] |},
          {| world := world env; events := events env;
             stdout := stdout env ++ [BackToTheModel] |})) /\
    (exists_action self state = inr true ->
       exists content t ts,
         last (messages state) = Some (AIMessage content (t :: ts))).
Proof.
  intros self state env. rewrite take_action_shape.
  unfold exists_action, last_message.
  split; [by intros ->|].
  split.
  { intros m -> Hkind. destruct m as [c|c|c ts|i n c]; try done.
    by destruct Hkind. }
  destruct (last (messages state)) as [[c|c|content tool_calls|i n c]|];
    simpl; (split; [by intros e [= <-]|]); (split; [try done|try done]).
  - destruct tool_calls; [done|discriminate].
  - destruct tool_calls as [|t ts]; [discriminate|]. intros _. by exists content, t, ts.
Qed.

End EdgeAndAction.

(** * The further properties on the agents of [Examples] *)

Lemma abot_unknown_tool_raises_its_own : raises_its_own abot_unknown_tool.
Proof.
  split.
  - intros input w e w'. simpl. unfold bind_tools, mock_model.
    by destruct (observed input).
  - intros key tool args w e w'. simpl. unfold tools_by_name. simpl.
    destruct (decide (key = "search")) as [->|Hne].
    + rewrite lookup_insert_eq. by intros [= <-].
    + rewrite lookup_insert_ne by done. by rewrite lookup_empty.
Qed.

(** The batch of [asked], answered by [abot]; and the batch of
    [asked_more], in which the calculator is not registered: the search
    asked for after it is not announced. *)
Lemma take_action_prints_witness :
  (exists update env',
     take_action abot asked env0 = (inr update, env') /\
     stdout env' = stdout env0 ++ map Calling [c1; c3] ++ [BackToTheModel]) /\
  (exists env',
     take_action abot_unknown_tool asked_more env0
     = (inl (KeyError "calculator"), env') /\
     stdout env' = [Calling c1; Calling c2] /\
     exists done t rest,
       [c1; c2; c3] = done ++ t :: rest /\
       stdout env' = stdout env0 ++ map Calling (done ++ [t])).
Proof.
  split.
  - destruct (take_action_prints abot asked "" [c1; c3] env0 eq_refl) as [Hreturns _].
    eexists _, _. split; [reflexivity|]. eapply Hreturns. reflexivity.
  - destruct (take_action_prints abot_unknown_tool asked_more "" [c1; c2; c3] env0
                eq_refl) as [_ Hraises].
    eexists. split; [reflexivity|]. split; [reflexivity|].
    edestruct Hraises as (done & t & rest & results & env1 & Heq & _ & _ & _ & Hout);
      [reflexivity|].
    by exists done, t, rest.
Defined.

(** The calculator is not registered: the search asked for after it is not
    made. *)
Lemma take_action_stops_at_first_failure_witness :
  exists env',
    take_action abot_unknown_tool asked_calculator env0
    = (inl (KeyError "calculator"), env') /\
    take_action abot_unknown_tool asked_more env0
    = (inl (KeyError "calculator"), env').
Proof.
  eexists. split; [reflexivity|].
  apply (take_action_stops_at_first_failure abot_unknown_tool asked_calculator
           asked_more "" "" [c1; c2] [c3] env0);
    reflexivity.
Defined.

(** A turn of [abot] that finished. *)
Lemma steps_go_by_pairs_witness :
  paired (steps (graph_stream 10 abot question "1" ∅ env0)) /\
  exists front content,
    steps (graph_stream 10 abot question "1" ∅ env0)
    = front ++ [(llm, {| messages := [AIMessage content []] |})].
Proof.
  destruct (steps_go_by_pairs 10 abot question "1" ∅ env0) as [Hpaired Hlast].
  split; [exact Hpaired|]. apply Hlast. by vm_compute.
Defined.

Lemma finished_turn_ends_on_the_answer_witness :
  exists content,
    last (get_history "1" (saver_after (graph_stream 10 abot question "1" ∅ env0)))
    = Some (AIMessage content []) /\
    exists_action abot (load "1" (saver_after (graph_stream 10 abot question "1" ∅ env0)))
    = inr false.
Proof.
  apply (finished_turn_ends_on_the_answer 10 abot question "1" ∅ env0).
  by vm_compute.
Defined.

Lemma nothing_stored_resolves (thread_id : string) :
  references_resolve (get_history thread_id ∅).
Proof. intros i id name content Hi. discriminate. Qed.

(** A first turn of [abot], on a thread that has no history. *)
Lemma tool_messages_refer_to_earlier_calls_witness :
  references_resolve
    (get_history "1" (saver_after (graph_stream 10 abot question "1" ∅ env0))).
Proof.
  apply (tool_messages_refer_to_earlier_calls 10 abot question "1" ∅ env0).
  - apply nothing_stored_resolves.
  - vm_compute. by repeat constructor.
Defined.

(** The first call of a turn of [abot]. *)
Lemma decisions_see_the_conversation_witness :
  exists evs,
    events (env_after (graph_stream 10 abot question "1" ∅ env0))
    = events env0 ++ evs /\
    model_calls evs !! 0
    = Some (model_input abot
              {| messages := get_history "1" ∅ ++ messages question |}).
Proof.
  destruct (decisions_see_the_conversation 10 abot question "1" ∅ env0)
    as (evs & tail & Hevs & _ & _ & Hfirst).
  exists evs. split; [exact Hevs|]. apply Hfirst. lia.
Defined.

(** A turn of [abot_plain], which has no preamble. *)
Lemma without_preamble_witness :
  exists evs,
    events (env_after (graph_stream 10 abot_plain question "1" ∅ env0))
    = events env0 ++ evs /\
    Forall (Forall (fun m => is_system m = false)) (model_calls evs).
Proof.
  destruct (without_preamble_the_model_sees_the_conversation 10 abot_plain
              question "1" ∅ env0 eq_refl)
    as (evs & Hevs & _ & Hnone).
  exists evs. split; [exact Hevs|]. apply Hnone.
  vm_compute. by repeat constructor.
Defined.

(** The first decision of [abot_unknown_tool] asks for the calculator,
    which is not registered. *)
Lemma graph_nodes_fail_on_a_tool_or_the_model_witness :
  exists update env1 env2,
    call_openai abot_unknown_tool question env0 = (inr update, env1) /\
    take_action abot_unknown_tool (reduce question update) env1
    = (inl (KeyError "calculator"), env2) /\
    ((exists what, KeyError "calculator" = Raised what) \/
     (exists key, KeyError "calculator" = KeyError key /\
        tools abot_unknown_tool !! key = None)) /\
    KeyError "calculator" <> IndexError /\
    (forall attr, KeyError "calculator" <> AttributeError attr).
Proof.
  destruct (graph_nodes_fail_on_a_tool_or_the_model abot_unknown_tool question env0)
    as (_ & _ & Hown).
  destruct (Hown abot_unknown_tool_raises_its_own) as [_ Hact].
  eexists _, _, _.
  match goal with
  | |- ?called /\ ?failed /\ _ =>
      assert (Hcall : called); [reflexivity|];
      assert (Hfails : failed); [reflexivity|]
  end.
  exact (conj Hcall (conj Hfails (Hact _ _ _ _ _ Hcall Hfails))).
Defined.
